(** * Athlete dashboard: pace, period keys, record store and monthly aggregation

    A shallow embedding of [app.py] (the Flask application of the
    repository) and the properties its specification states about it.

    Conventions of the embedding.
    - Text is [string] (a sequence of 8-bit characters) read as ASCII text:
      the decimal digits are ["0"] .. ["9"] and the blank characters are the
      six ASCII ones Python's [int] strips.
    - A Python [float] is an IEEE-754 binary64 value, [spec_float] with
      precision 53 and maximal exponent 1024; every arithmetic operation is
      the correctly rounded one of [SpecFloat] (round to nearest, ties to
      even), which is what CPython computes.
    - A Python [int] is a [Z].
    - A raised exception is the [Raise] outcome of the [result] type; a
      [try ... except] is [try_except].
    - Nullable columns and [None] are [option].
    - What a request brings from outside is an argument of its handler:
      the posted form, the clock ([dt.datetime.now()]) and the built-in
      [float] on text.
    - A request that raises commits nothing: the table is as it was. *)

From Stdlib Require Import ZArith List String Ascii Bool Lia.
From Stdlib Require Import Permutation Sorted OrderedTypeEx.
From Stdlib Require Import DecimalString DecimalN SpecFloat.
Import ListNotations.

Open Scope string_scope.
Open Scope list_scope.
Open Scope Z_scope.

(* ================================================================== *)
(** * Python values and built-ins used by the application *)
(* ================================================================== *)

(** ** Exceptions *)

Inductive exn : Type :=
| ValueError
| TypeError
| ZeroDivisionError
| OverflowError
| NotFound.   (* werkzeug's 404, raised by [db.get_or_404] *)

Inductive result (A : Type) : Type :=
| Ret (a : A)
| Raise (e : exn).

Arguments Ret {A} a.
Arguments Raise {A} e.

Definition bind {A B : Type} (c : result A) (k : A -> result B) : result B :=
  match c with
  | Ret a => k a
  | Raise e => Raise e
  end.

Notation "x <- c1 ;; c2" := (bind c1 (fun x => c2))
  (at level 61, c1 at next level, right associativity).

(** [try: body except handled: return fallback]. *)
Definition try_except {A : Type} (body : result A) (handled : exn -> bool)
    (fallback : A) : result A :=
  match body with
  | Ret a => Ret a
  | Raise e => if handled e then Ret fallback else Raise e
  end.

(** A failed conversion ([int(s)], [strptime]) raises [ValueError]. *)
Definition or_ValueError {A : Type} (o : option A) : result A :=
  match o with
  | Some a => Ret a
  | None => Raise ValueError
  end.

(** ** Strings *)

Definition colon : ascii := ":"%char.
Definition dash : ascii := "-"%char.

(** [s.split(sep)] for a one-character separator. *)
Fixpoint split (sep : ascii) (s : string) : list string :=
  match s with
  | EmptyString => [EmptyString]
  | String c s' =>
      if Ascii.eqb c sep then EmptyString :: split sep s'
      else match split sep s' with
           | [] => [String c EmptyString]
           | p :: ps => String c p :: ps
           end
  end.

(** Truth value of a string-or-None: [None] and [""] are false. *)
Definition str_bool (s : option string) : bool :=
  match s with
  | None => false
  | Some EmptyString => false
  | Some _ => true
  end.

Definition is_digit (c : ascii) : bool :=
  let n := nat_of_ascii c in (48 <=? n)%nat && (n <=? 57)%nat.

Definition digit_val (c : ascii) : Z := Z.of_nat (nat_of_ascii c) - 48.

Definition digit_char (d : Z) : ascii := ascii_of_nat (Z.to_nat (48 + d)).

(** The blanks [int] strips from both ends of ASCII text:
    space, tab, line feed, vertical tab, form feed, carriage return. *)
Definition is_space (c : ascii) : bool :=
  let n := nat_of_ascii c in (n =? 32)%nat || ((9 <=? n)%nat && (n <=? 13)%nat).

Fixpoint lstrip (l : list ascii) : list ascii :=
  match l with
  | c :: l' => if is_space c then lstrip l' else l
  | [] => []
  end.

Definition strip (l : list ascii) : list ascii := rev (lstrip (rev (lstrip l))).

(** Decimal digits with single underscores allowed between two digits;
    [prev] tells whether the previous character was a digit. *)
Fixpoint digits_value (acc : Z) (prev : bool) (l : list ascii) : option Z :=
  match l with
  | [] => if prev then Some acc else None
  | c :: l' =>
      if is_digit c then digits_value (10 * acc + digit_val c) true l'
      else if Ascii.eqb c "_"%char then
             if prev then digits_value acc false l' else None
           else None
  end.

(** CPython refuses to convert more than 4300 decimal digits (the default
    [sys.get_int_max_str_digits()]); the refusal is a [ValueError]. *)
Definition int_max_str_digits : nat := 4300.

Definition count_digits (l : list ascii) : nat := List.length (filter is_digit l).

Definition unsigned_value (l : list ascii) : option Z :=
  if (int_max_str_digits <? count_digits l)%nat then None
  else digits_value 0 false l.

(** [int(s)] in base ten; [None] stands for the [ValueError]. *)
Definition py_int (s : string) : option Z :=
  match strip (list_ascii_of_string s) with
  | c :: l =>
      if Ascii.eqb c "-"%char then option_map Z.opp (unsigned_value l)
      else if Ascii.eqb c "+"%char then unsigned_value l
      else unsigned_value (c :: l)
  | [] => None
  end.

(** Decimal digits of a non-negative integer, most significant first. *)
Definition decimal (n : N) : string :=
  NilZero.string_of_uint (N.to_uint n).

(** The format specification [02d]: sign first, zeros up to width two. *)
Definition format_02d (z : Z) : string :=
  if z <? 0 then String "-" (decimal (Z.abs_N z))
  else if z <? 10 then String "0" (decimal (Z.abs_N z))
  else decimal (Z.abs_N z).

(** ** Floats (binary64) *)

Definition prec : Z := 53.
Definition emax : Z := 1024.

Definition float : Type := spec_float.

Definition fadd : float -> float -> float := SFadd prec emax.
Definition fsub : float -> float -> float := SFsub prec emax.
Definition fmul : float -> float -> float := SFmul prec emax.
Definition fdiv : float -> float -> float := SFdiv prec emax.

(** The float nearest to an integer (infinite when out of range). *)
Definition Z2F (z : Z) : float := binary_normalize prec emax z 0 false.

Definition fzero : float := S754_zero false.

Definition is_inf (x : float) : bool :=
  match x with S754_infinity _ => true | _ => false end.

Definition is_nan (x : float) : bool :=
  match x with S754_nan => true | _ => false end.

Definition is_zero (x : float) : bool :=
  match x with S754_zero _ => true | _ => false end.

Definition is_finite (x : float) : bool :=
  match x with S754_zero _ | S754_finite _ _ _ => true | _ => false end.

(** Truth value of a float-or-None: [None], [0.0] and [-0.0] are false
    (a NaN is true). *)
Definition float_bool (x : option float) : bool :=
  match x with
  | None => false
  | Some f => negb (is_zero f)
  end.

(** [x <= 0] and [0 < x]. *)
Definition float_le0 (x : float) : bool := SFleb x fzero.
Definition float_gt0 (x : float) : bool := SFltb fzero x.

(** int -> float conversion, as in [int + float]:
    [OverflowError] when the integer is beyond the float range. *)
Definition float_of_int (z : Z) : result float :=
  let f := Z2F z in
  if is_inf f then Raise OverflowError else Ret f.

(** The float nearest to the quotient of two integers, [b] not zero. *)
Definition int_quotient (a b : Z) : float :=
  if a =? 0 then S754_zero (b <? 0)
  else
    let '(q, e, l) := SFdiv_core_binary prec emax (Z.abs a) 0 (Z.abs b) 0 in
    binary_round_aux prec emax (xorb (a <? 0) (b <? 0)) q e l.

(** [a / b] on two ints: the correctly rounded quotient. *)
Definition int_truediv (a b : Z) : result float :=
  if b =? 0 then Raise ZeroDivisionError
  else
    let f := int_quotient a b in
    if is_inf f then Raise OverflowError else Ret f.

(** [x / y] on two floats: only a zero divisor raises. *)
Definition float_truediv (x y : float) : result float :=
  if is_zero y then Raise ZeroDivisionError else Ret (fdiv x y).

(** The integer part of a finite float, toward zero. *)
Definition trunc (x : float) : Z :=
  match x with
  | S754_finite s m e => cond_Zopp s (Z.shiftl (Zpos m) e)
  | _ => 0
  end.

(** [int(x)]: truncation toward zero. *)
Definition int_of_float (x : float) : result Z :=
  match x with
  | S754_nan => Raise ValueError
  | S754_infinity _ => Raise OverflowError
  | _ => Ret (trunc x)
  end.

(* ================================================================== *)
(** * The application: helpers *)
(* ================================================================== *)

(** [get_month_year]: MM-YYYY out of a DD-MM-YYYY text. *)
Definition get_month_year (date_str : option string) : option string :=
  if str_bool date_str then
    match date_str with
    | Some d =>
        match split dash d with
        | [_; p1; p2] => Some (p1 ++ "-" ++ p2)%string
        | _ => None
        end
    | None => None
    end
  else None.

(** The exceptions the [except] clause of [calculate_pace] names. *)
Definition handled_in_calculate_pace (e : exn) : bool :=
  match e with
  | ValueError | ZeroDivisionError => true
  | _ => false
  end.

(** [i + q] for an int [i] and a float [q]: the int is converted first. *)
Definition int_add_float (i : Z) (q : float) : result float :=
  x <- float_of_int i ;;
  Ret (fadd x q).

(** [hours * 60 + minutes + seconds / 60]. *)
Definition total_minutes_hms (hours minutes seconds : Z) : result float :=
  q <- int_truediv seconds 60 ;;
  int_add_float (hours * 60 + minutes) q.

(** [minutes + seconds / 60]. *)
Definition total_minutes_ms (minutes seconds : Z) : result float :=
  q <- int_truediv seconds 60 ;;
  int_add_float minutes q.

(** The statements after the parse: quotient, truncations, formatting. *)
Definition pace_of_total (total : float) (distance_km : float) : result (option string) :=
  pace_minutes <- float_truediv total distance_km ;;
  pace_mins <- int_of_float pace_minutes ;;
  m <- float_of_int pace_mins ;;
  sixty <- float_of_int 60 ;;
  pace_secs <- int_of_float (fmul (fsub pace_minutes m) sixty) ;;
  Ret (Some (format_02d pace_mins ++ ":" ++ format_02d pace_secs)%string).

(** [calculate_pace]: the guard, then the body under
    [try ... except (ValueError, ZeroDivisionError): return None].  The
    callers pass a float or the int 0, which the guard treats alike. *)
Definition calculate_pace (distance_km : option float) (time_str : option string)
  : result (option string) :=
  match distance_km, time_str with
  | Some d, Some t =>
      if negb (float_bool distance_km) || float_le0 d || negb (str_bool time_str)
      then Ret None
      else
        try_except
          (match split colon t with
           | [a; b; c] =>
               hours <- or_ValueError (py_int a) ;;
               minutes <- or_ValueError (py_int b) ;;
               seconds <- or_ValueError (py_int c) ;;
               total <- total_minutes_hms hours minutes seconds ;;
               pace_of_total total d
           | [a; b] =>
               minutes <- or_ValueError (py_int a) ;;
               seconds <- or_ValueError (py_int b) ;;
               total <- total_minutes_ms minutes seconds ;;
               pace_of_total total d
           | _ => Ret None
           end)
          handled_in_calculate_pace None
  | _, _ => Ret None
  end.

(* ================================================================== *)
(** * [datetime]: the two formats the application parses and prints *)
(* ================================================================== *)

(** The calendar part of a [datetime]; the application never reads the
    time of day. *)
Record datetime : Type := { year : Z; month : Z; day : Z }.

Definition is_leap (y : Z) : bool :=
  (y mod 4 =? 0) && (negb (y mod 100 =? 0) || (y mod 400 =? 0)).

Definition days_in_month (y m : Z) : Z :=
  if m =? 2 then (if is_leap y then 29 else 28)
  else if (m =? 4) || (m =? 6) || (m =? 9) || (m =? 11) then 30
  else 31.

Definition valid_date (y m d : Z) : bool :=
  (1 <=? y) && (y <=? 9999) && (1 <=? m) && (m <=? 12) &&
  (1 <=? d) && (d <=? days_in_month y m).

(** The constructor [datetime(y, m, d)]; [None] stands for its [ValueError]. *)
Definition make_datetime (y m d : Z) : option datetime :=
  if valid_date y m d then Some {| year := y; month := m; day := d |} else None.

Definition in_range (lo hi c : ascii) : bool :=
  (nat_of_ascii lo <=? nat_of_ascii c)%nat && (nat_of_ascii c <=? nat_of_ascii hi)%nat.

Definition orelse {A : Type} (x y : option A) : option A :=
  match x with
  | Some _ => x
  | None => y
  end.

(** One alternative of a directive's regular expression, reading one or two
    characters. *)
Definition alt1 (p : ascii -> option Z) (l : list ascii) : option (Z * list ascii) :=
  match l with
  | a :: r => option_map (fun v => (v, r)) (p a)
  | _ => None
  end.

Definition alt2 (p : ascii -> ascii -> option Z) (l : list ascii)
  : option (Z * list ascii) :=
  match l with
  | a :: b :: r => option_map (fun v => (v, r)) (p a b)
  | _ => None
  end.

(** [%Y] is [\d\d\d\d]. *)
Definition parse_Y (l : list ascii) : option (Z * list ascii) :=
  match l with
  | a :: b :: c :: d :: r =>
      if is_digit a && is_digit b && is_digit c && is_digit d
      then Some (1000 * digit_val a + 100 * digit_val b + 10 * digit_val c + digit_val d, r)
      else None
  | _ => None
  end.

(** [%m] is [1[0-2]|0[1-9]|[1-9]]. *)
Definition parse_m (l : list ascii) : option (Z * list ascii) :=
  orelse (alt2 (fun a b => if Ascii.eqb a "1" && in_range "0" "2" b
                           then Some (10 + digit_val b) else None) l)
  (orelse (alt2 (fun a b => if Ascii.eqb a "0" && in_range "1" "9" b
                            then Some (digit_val b) else None) l)
          (alt1 (fun a => if in_range "1" "9" a then Some (digit_val a) else None) l)).

(** [%d] is [3[0-1]|[1-2]\d|0[1-9]|[1-9]| [1-9]]. *)
Definition parse_d (l : list ascii) : option (Z * list ascii) :=
  orelse (alt2 (fun a b => if Ascii.eqb a "3" && in_range "0" "1" b
                           then Some (30 + digit_val b) else None) l)
  (orelse (alt2 (fun a b => if in_range "1" "2" a && is_digit b
                            then Some (10 * digit_val a + digit_val b) else None) l)
  (orelse (alt2 (fun a b => if Ascii.eqb a "0" && in_range "1" "9" b
                            then Some (digit_val b) else None) l)
  (orelse (alt1 (fun a => if in_range "1" "9" a then Some (digit_val a) else None) l)
          (alt2 (fun a b => if Ascii.eqb a " " && in_range "1" "9" b
                            then Some (digit_val b) else None) l)))).

Definition expect (c : ascii) (l : list ascii) : option (list ascii) :=
  match l with
  | x :: r => if Ascii.eqb x c then Some r else None
  | [] => None
  end.

(** [datetime.strptime(s, "%Y-%m-%d")]; [None] stands for the [ValueError]
    (no match, unconverted data, or a date that does not exist). *)
Definition strptime_Ymd (s : string) : option datetime :=
  match parse_Y (list_ascii_of_string s) with
  | Some (y, l1) =>
      match expect dash l1 with
      | Some l2 =>
          match parse_m l2 with
          | Some (m, l3) =>
              match expect dash l3 with
              | Some l4 =>
                  match parse_d l4 with
                  | Some (d, []) => make_datetime y m d
                  | _ => None
                  end
              | None => None
              end
          | None => None
          end
      | None => None
      end
  | None => None
  end.

(** [datetime.strptime(s, "%m-%Y")]: the day defaults to 1. *)
Definition strptime_mY (s : string) : option datetime :=
  match parse_m (list_ascii_of_string s) with
  | Some (m, l1) =>
      match expect dash l1 with
      | Some l2 =>
          match parse_Y l2 with
          | Some (y, []) => make_datetime y m 1
          | _ => None
          end
      | None => None
      end
  | None => None
  end.

Fixpoint zeros (k : nat) : string :=
  match k with
  | O => EmptyString
  | S k' => String "0" (zeros k')
  end.

(** A number in decimal, zero-filled on the left up to width [w]. *)
Definition zpad (w : nat) (n : Z) : string :=
  let s := decimal (Z.to_N n) in
  (zeros (w - String.length s) ++ s)%string.

(** [%Y] of [strftime]: the year in decimal, as the C library prints it
    (CPython 3.11 on glibc).  It is not zero-filled: the year 999 prints as
    [999], on three characters. *)
Definition strftime_Y (y : Z) : string := decimal (Z.to_N y).

(** [p.strftime("%d-%m-%Y")] and [p.strftime("%m-%Y")]; [%d] and [%m] are
    zero-filled on two digits. *)
Definition strftime_dmY (p : datetime) : string :=
  (zpad 2 (day p) ++ "-" ++ zpad 2 (month p) ++ "-" ++ strftime_Y (year p))%string.

Definition strftime_mY (p : datetime) : string :=
  (zpad 2 (month p) ++ "-" ++ strftime_Y (year p))%string.

(** Order of two datetimes (the one [sorted] uses on the keys). *)
Definition datetime_compare (a b : datetime) : comparison :=
  match year a ?= year b with
  | Eq => match month a ?= month b with
          | Eq => day a ?= day b
          | c => c
          end
  | c => c
  end.

Definition datetime_leb (a b : datetime) : bool :=
  match datetime_compare a b with
  | Gt => false
  | _ => true
  end.

(* ================================================================== *)
(** * The table [Athlete_Data] and the request handlers *)
(* ================================================================== *)

Record Athlete_Data : Type := {
  id : Z;
  date : option string;
  activity_type : option string;
  distance : option float;
  time : option string;
  pace : option string;
  calories : option float;
  month_year : option string
}.

(** The table: its rows, in insertion order. *)
Definition store : Type := list Athlete_Data.

(** The row id SQLite gives to a new row: one more than the largest. *)
Definition next_id (st : store) : Z :=
  fold_right (fun r acc => Z.max (id r + 1) acc) 1 st.

Fixpoint get (st : store) (i : Z) : option Athlete_Data :=
  match st with
  | [] => None
  | r :: st' => if id r =? i then Some r else get st' i
  end.

(** [db.get_or_404(Athlete_Data, i)]. *)
Definition get_or_404 (st : store) (i : Z) : result Athlete_Data :=
  match get st i with
  | Some r => Ret r
  | None => Raise NotFound
  end.

(** The committed update of the row whose id is [id r]. *)
Fixpoint put (st : store) (r : Athlete_Data) : store :=
  match st with
  | [] => []
  | r' :: st' => if id r' =? id r then r :: st' else r' :: put st' r
  end.

Fixpoint remove (st : store) (i : Z) : store :=
  match st with
  | [] => []
  | r :: st' => if id r =? i then st' else r :: remove st' i
  end.

(** The fields of a posted form, [None] when the key is missing. *)
Record form : Type := {
  f_id : option string;
  f_date : option string;
  f_activity_type : option string;
  f_distance : option string;
  f_time : option string;
  f_calories : option string
}.

Definition get_default (v : option string) (default : string) : string :=
  match v with
  | Some s => s
  | None => default
  end.

(** [int(request.form.get("id"))]: [int(None)] is a [TypeError]. *)
Definition int_of_field (v : option string) : result Z :=
  match v with
  | None => Raise TypeError
  | Some s => or_ValueError (py_int s)
  end.

Section Handlers.

(** The built-in [float] on text; [None] stands for its [ValueError].
    The handlers are verified for every behaviour of it. *)
Variable py_float : string -> option float.

(** [try: x = float(request.form.get(key, 0)) except (ValueError, TypeError): x = 0]. *)
Definition float_of_field (v : option string) : float :=
  match v with
  | None => Z2F 0
  | Some s =>
      match py_float s with
      | Some x => x
      | None => Z2F 0
      end
  end.

(** POST /add; [now] is what [dt.datetime.now()] returns.  The call of
    [recalc_monthly_totals] that follows the commit, here and in the two
    other handlers, reads the rows and groups them by month; it computes no
    total and writes nothing, so the table is the one committed. *)
Definition add (f : form) (now : datetime) (st : store) : result store :=
  let activity := get_default (f_activity_type f) "Running" in
  let dist := float_of_field (f_distance f) in
  let time_str := get_default (f_time f) "00:00:00" in
  p <- calculate_pace (Some dist) (Some time_str) ;;
  let cal := float_of_field (f_calories f) in
  let parsed :=
    if str_bool (f_date f) then
      match f_date f with
      | Some date_raw =>
          match strptime_Ymd date_raw with
          | Some parsed => parsed
          | None => now
          end
      | None => now
      end
    else now in
  Ret (st ++ [ {| id := next_id st;
                  date := Some (strftime_dmY parsed);
                  activity_type := Some activity;
                  distance := Some dist;
                  time := Some time_str;
                  pace := p;
                  calories := Some cal;
                  month_year := Some (strftime_mY parsed) |} ]).

(** The date step of POST /edit: both columns change, or neither. *)
Definition edit_date (new_date_raw : option string) (r : Athlete_Data)
  : option string * option string :=
  if str_bool new_date_raw then
    match new_date_raw with
    | Some raw =>
        match strptime_Ymd raw with
        | Some parsed => (Some (strftime_dmY parsed), Some (strftime_mY parsed))
        | None => (date r, month_year r)
        end
    | None => (date r, month_year r)
    end
  else (date r, month_year r).

(** POST /edit. An exception leaves the table as it was: nothing is
    committed before the last statement. *)
Definition edit (f : form) (st : store) : result store :=
  athlete_id <- int_of_field (f_id f) ;;
  athlete_record <- get_or_404 st athlete_id ;;
  let dm := edit_date (f_date f) athlete_record in
  let activity := get_default (f_activity_type f) "Running" in
  let dist := float_of_field (f_distance f) in
  let time_str := get_default (f_time f) "00:00:00" in
  p <- calculate_pace (Some dist) (Some time_str) ;;
  let cal := float_of_field (f_calories f) in
  Ret (put st {| id := id athlete_record;
                 date := fst dm;
                 activity_type := Some activity;
                 distance := Some dist;
                 time := Some time_str;
                 pace := p;
                 calories := Some cal;
                 month_year := snd dm |}).

End Handlers.

(** GET /delete?id=... *)
Definition delete_data (arg_id : option string) (st : store) : result store :=
  athlete_id <- int_of_field arg_id ;;
  athlete_to_delete <- get_or_404 st athlete_id ;;
  Ret (remove st (id athlete_to_delete)).

(* ================================================================== *)
(** * The list view: query, grouping, totals, sorted months *)
(* ================================================================== *)

(** Order of the [date] column: text compared character by character,
    NULL below every text (SQLite). *)
Definition date_compare (a b : option string) : comparison :=
  match a, b with
  | None, None => Eq
  | None, Some _ => Lt
  | Some _, None => Gt
  | Some x, Some y => String.compare x y
  end.

(** Order of two rows under [ORDER BY date, id]. *)
Definition row_compare (a b : Athlete_Data) : comparison :=
  match date_compare (date a) (date b) with
  | Eq => id a ?= id b
  | c => c
  end.

Section Sorting.

Context {A : Type}.
(** [geb x y]: [x] may stand before [y] in a descending sequence. *)
Variable geb : A -> A -> bool.

Fixpoint insert_desc (x : A) (l : list A) : list A :=
  match l with
  | [] => [x]
  | y :: l' => if geb x y then x :: l else y :: insert_desc x l'
  end.

(** A stable descending sort: of two elements neither of which is above
    the other, the one that came first stays first. *)
Definition sort_desc (l : list A) : list A :=
  fold_right insert_desc [] l.

End Sorting.

Definition row_geb (a b : Athlete_Data) : bool :=
  match row_compare a b with
  | Lt => false
  | _ => true
  end.

(** [db.select(Athlete_Data).order_by(Athlete_Data.date.desc(), Athlete_Data.id.desc())]. *)
Definition select_desc (st : store) : list Athlete_Data :=
  sort_desc row_geb st.

(** A Python [dict] with text keys: the items in insertion order. *)
Definition dict (V : Type) : Type := list (string * V).

Definition keys {V : Type} (d : dict V) : list string := map fst d.

Fixpoint lookup {V : Type} (k : string) (d : dict V) : option V :=
  match d with
  | [] => None
  | (k', v) :: d' => if String.eqb k k' then Some v else lookup k d'
  end.

(** [d[k].append(r)] on a [defaultdict(list)]. *)
Fixpoint dict_append {V : Type} (k : string) (r : V) (d : dict (list V))
  : dict (list V) :=
  match d with
  | [] => [(k, [r])]
  | (k', rs) :: d' =>
      if String.eqb k k' then (k', rs ++ [r]) :: d'
      else (k', rs) :: dict_append k r d'
  end.

(** The grouping loop of [home]. *)
Definition group_step (d : dict (list Athlete_Data)) (record : Athlete_Data)
  : dict (list Athlete_Data) :=
  if str_bool (month_year record) then
    match month_year record with
    | Some k => dict_append k record d
    | None => d
    end
  else d.

Definition group_by_month (athlete_data : list Athlete_Data)
  : dict (list Athlete_Data) :=
  fold_left group_step athlete_data [].

(** [x or 0.0]. *)
Definition or_zero (x : option float) : float :=
  match x with
  | Some f => if float_bool x then f else Z2F 0
  | None => Z2F 0
  end.

(** [sum(...)] of floats: binary64 additions from left to right, starting
    from 0 (the plain summation of CPython 3.11). *)
Definition py_sum (l : list float) : float := fold_left fadd l (Z2F 0).

Record totals : Type := { total_of_distance : float; total_of_calories : float }.

Definition sum_distance (records : list Athlete_Data) : float :=
  py_sum (map (fun r => or_zero (distance r)) records).

Definition sum_calories (records : list Athlete_Data) : float :=
  py_sum (map (fun r => or_zero (calories r)) records).

Definition totals_of (records : list Athlete_Data) : totals :=
  {| total_of_distance := sum_distance records;
     total_of_calories := sum_calories records |}.

Definition monthly_totals_of (monthly_data : dict (list Athlete_Data)) : dict totals :=
  map (fun kv => (fst kv, totals_of (snd kv))) monthly_data.

(** The sort keys, computed for every month before any comparison; the
    first text that is not a [%m-%Y] month raises. *)
Fixpoint month_keys (ks : list string) : result (list (string * datetime)) :=
  match ks with
  | [] => Ret []
  | k :: ks' =>
      p <- or_ValueError (strptime_mY k) ;;
      rest <- month_keys ks' ;;
      Ret ((k, p) :: rest)
  end.

Definition key_geb (a b : string * datetime) : bool :=
  datetime_leb (snd b) (snd a).

(** [sorted(ks, key=lambda x: strptime(x, "%m-%Y"), reverse=True)]. *)
Definition sorted_by_month_desc (ks : list string) : result (list string) :=
  keyed <- month_keys ks ;;
  Ret (map fst (sort_desc key_geb keyed)).

(** What [home] hands to the template. *)
Record view : Type := {
  monthly_data : dict (list Athlete_Data);
  sorted_months : list string;
  monthly_totals : dict totals;
  total_distance : float;
  total_calories : float
}.

Definition aggregate (athlete_data : list Athlete_Data) : result view :=
  let md := group_by_month athlete_data in
  let mt := monthly_totals_of md in
  sm <- sorted_by_month_desc (keys md) ;;
  Ret {| monthly_data := md;
         sorted_months := sm;
         monthly_totals := mt;
         total_distance := sum_distance athlete_data;
         total_calories := sum_calories athlete_data |}.

(** GET / *)
Definition home (st : store) : result view :=
  aggregate (select_desc st).

(* ================================================================== *)
(** * The migration script: the month column filled from the dates *)
(* ================================================================== *)













(* ================================================================== *)
(** * Predicates used in the statements *)
(* ================================================================== *)

(** Every character of a text passes a test. *)
Fixpoint all_chars (P : ascii -> bool) (s : string) : bool :=
  match s with
  | EmptyString => true
  | String c s' => P c && all_chars P s'
  end.

(** The fields DD, MM and YYYY: a number written on exactly two, or exactly
    four, decimal digits. *)
Definition two_digits (n : Z) : string :=
  String (digit_char (n / 10)) (String (digit_char (n mod 10)) EmptyString).

Definition four_digits (n : Z) : string :=
  String (digit_char (n / 1000))
    (String (digit_char ((n / 100) mod 10))
       (String (digit_char ((n / 10) mod 10))
          (String (digit_char (n mod 10)) EmptyString))).

(** Following the specification: the canonical date DD-MM-YYYY and the
    period key MM-YYYY of a day. *)
Definition DD_MM_YYYY (p : datetime) : string :=
  (two_digits (day p) ++ "-" ++ two_digits (month p) ++ "-" ++ four_digits (year p))%string.

Definition MM_YYYY (p : datetime) : string :=
  (two_digits (month p) ++ "-" ++ four_digits (year p))%string.

(** [a] stands before [b] in the list view: a later [date] text, or the
    same [date] and an id that is not smaller. *)
Definition row_before (a b : Athlete_Data) : Prop :=
  date_compare (date a) (date b) = Gt \/ (date a = date b /\ id b <= id a).

(** The record carries the month [k]. *)
Definition in_month (k : string) (r : Athlete_Data) : bool :=
  match month_year r with
  | Some k' => String.eqb k' k
  | None => false
  end.

(** Month [a] is not earlier than month [b] in the calendar. *)
Definition month_not_before (a b : string) : Prop :=
  exists pa pb,
    strptime_mY a = Some pa /\ strptime_mY b = Some pb /\
    (year pb < year pa \/ (year pb = year pa /\ month pb <= month pa)).

(** Month [a] is later than month [b] in the calendar. *)
Definition month_after (a b : string) : Prop :=
  exists pa pb,
    strptime_mY a = Some pa /\ strptime_mY b = Some pb /\
    (year pb < year pa \/ (year pb = year pa /\ month pb < month pa)).

(** A month in the form MM-YYYY: it reads as a month, written on two
    digits, and a year, written on four. *)
Definition canonical_month (k : string) : Prop :=
  exists p, strptime_mY k = Some p /\ MM_YYYY p = k.

(** A row with a distance and a month, for the worked examples. *)
Definition sample_row (i : Z) (d : string) (km : Z) (my : string) : Athlete_Data :=
  {| id := i; date := Some d; activity_type := Some "Running";
     distance := Some (Z2F km); time := Some "00:30:00"; pace := None;
     calories := None; month_year := Some my |}.

Definition sample_rows : list Athlete_Data :=
  [ sample_row 1 "05-01-2024" 5 "01-2024";
    sample_row 2 "10-02-2024" 10 "02-2024";
    sample_row 3 "07-01-2024" 3 "01-2024" ].

(** The records filed under a month, none when the month is not a key. *)
Definition members (k : string) (d : dict (list Athlete_Data)) : list Athlete_Data :=
  match lookup k d with
  | Some rs => rs
  | None => []
  end.

(** The derivation invariant of a stored record: the pace is the one
    [calculate_pace] gives for the stored distance and time, and the month
    is the one [get_month_year] reads in the stored date. *)
Definition derived (r : Athlete_Data) : Prop :=
  calculate_pace (distance r) (time r) = Ret (pace r) /\
  month_year r = get_month_year (date r).

(** The tables the application can build, from the empty one, by requests
    that complete. *)
Inductive reachable (py_float : string -> option float) : store -> Prop :=
| reach_empty : reachable py_float []
| reach_add (f : form) (now : datetime) (st st' : store) :
    reachable py_float st -> add py_float f now st = Ret st' ->
    reachable py_float st'
| reach_edit (f : form) (st st' : store) :
    reachable py_float st -> edit py_float f st = Ret st' ->
    reachable py_float st'
| reach_delete (arg_id : option string) (st st' : store) :
    reachable py_float st -> delete_data arg_id st = Ret st' ->
    reachable py_float st'.

(** A form with a date and nothing else, for the worked examples, and a
    stand-in for [float] that reads no text. *)
Definition form_with_date (d : string) : form :=
  {| f_id := None; f_date := Some d; f_activity_type := None;
     f_distance := None; f_time := None; f_calories := None |}.

Definition no_float (s : string) : option float := None.

(** A stand-in for [float] that reads the integers only. *)
Definition float_of_integer_text (s : string) : option float :=
  option_map Z2F (py_int s).

(** An edit of record 1 with a date that is not a [%Y-%m-%d] date. *)
Definition sample_edit : form :=
  {| f_id := Some "1"; f_date := Some "15/03/2024";
     f_activity_type := Some "Cycling"; f_distance := Some "10";
     f_time := Some "50:00"; f_calories := Some "300" |}.

Definition some_day : datetime := {| year := 2026; month := 11; day := 5 |}.

(** The record that POST /add with the date 0999-03-15, and nothing else in
    the form, writes into an empty table. *)
Definition record_of_year_999 : Athlete_Data :=
  {| id := 1; date := Some "15-03-999"; activity_type := Some "Running";
     distance := Some (Z2F 0); time := Some "00:00:00"; pace := None;
     calories := Some (Z2F 0); month_year := Some "03-999" |}.

(** ** Notions for the order of the list view *)

(** The record is dated on the day [p]: its date is the text the
    application writes for [p]. *)
Definition dated (r : Athlete_Data) (p : datetime) : Prop :=
  valid_date (year p) (month p) (day p) = true /\
  date r = Some (strftime_dmY p).

(** Following the specification: [a] may stand before [b] in a sequence
    sorted by date descending, the date being the calendar date, with id
    descending among equal dates. *)
Definition calendar_before (a b : Athlete_Data) : Prop :=
  forall pa pb, dated a pa -> dated b pb ->
    datetime_compare pa pb = Gt \/
    (datetime_compare pa pb = Eq /\ id b <= id a).

(** The same, asked only of two days of one month of one year. *)
Definition calendar_before_within_month (a b : Athlete_Data) : Prop :=
  forall pa pb, dated a pa -> dated b pb ->
    year pa = year pb -> month pa = month pb ->
    datetime_compare pa pb = Gt \/
    (datetime_compare pa pb = Eq /\ id b <= id a).

(** What POST /add writes for a date and nothing else in the form. *)
Definition dated_row (i : Z) (d my : string) : Athlete_Data :=
  {| id := i; date := Some d; activity_type := Some "Running";
     distance := Some (Z2F 0); time := Some "00:00:00"; pace := None;
     calories := Some (Z2F 0); month_year := Some my |}.

(** The table after two such requests, for 31 January 2024 and then for
    1 February 2024. *)
Definition cross_month_rows : store :=
  [ dated_row 1 "31-01-2024" "01-2024"; dated_row 2 "01-02-2024" "02-2024" ].

(** Two comparisons have the same outcome. *)
Definition same_comparison (c1 c2 : comparison) : bool :=
  match c1, c2 with
  | Eq, Eq | Lt, Lt | Gt, Gt => true
  | _, _ => false
  end.

(** ** Notions for the totals *)

(** Following the specification: the sum of a sequence of values, taken in
    their order: nothing sums to 0, and one more value is added (a binary64
    addition) to the sum of those before it. *)
Inductive sum_is : list float -> float -> Prop :=
| sum_nothing : sum_is [] (Z2F 0)
| sum_one_more (l : list float) (t x : float) :
    sum_is l t -> sum_is (l ++ [x]) (fadd t x).

(** The sum of integers: no rounding. *)
Fixpoint exact_sum (ns : list Z) : Z :=
  match ns with
  | [] => 0
  | n :: ns' => n + exact_sum ns'
  end.

(** ** Notions for the pace *)

(** Following the specification: total elapsed minutes are
    hours x 60 + minutes + seconds / 60. *)
Definition elapsed_minutes (h m s : Z) : float :=
  fadd (Z2F (h * 60 + m)) (int_quotient s 60).

(** Following the specification: the text of a pace of [pace_minutes]
    minutes per kilometre is the integer minute part, then the fractional
    minute part times 60, truncated, both zero-padded to two digits. *)
Definition pace_text (pace_minutes : float) : string :=
  (format_02d (trunc pace_minutes) ++ ":" ++
   format_02d (trunc (fmul (fsub pace_minutes (Z2F (trunc pace_minutes))) (Z2F 60))))%string.

(** The shape MM:SS: two digits, a colon, two digits that read at most 59. *)
Definition is_MM_SS (str : string) : bool :=
  match list_ascii_of_string str with
  | [m1; m2; c; s1; s2] =>
      is_digit m1 && is_digit m2 && Ascii.eqb c colon &&
      is_digit s1 && is_digit s2 && (10 * digit_val s1 + digit_val s2 <=? 59)
  | _ => false
  end.

(** A time whose two or three parts are non-negative integers. *)
Definition nonneg_part (p : string) : bool :=
  match py_int p with
  | Some z => 0 <=? z
  | None => false
  end.

Definition nonneg_time (t : string) : bool :=
  match split colon t with
  | [a; b; c] => nonneg_part a && nonneg_part b && nonneg_part c
  | [a; b] => nonneg_part a && nonneg_part b
  | _ => false
  end.

(** The integers a time text splits into, when it has two or three parts
    that all read as integers. *)
Definition time_parts (t : string) : option (list Z) :=
  match split colon t with
  | [a; b; c] =>
      match py_int a, py_int b, py_int c with
      | Some h, Some m, Some s => Some [h; m; s]
      | _, _, _ => None
      end
  | [a; b] =>
      match py_int a, py_int b with
      | Some m, Some s => Some [m; s]
      | _, _ => None
      end
  | _ => None
  end.

(** The shape of a returned pace: a minute field of at least two digits
    (exactly two below 100 minutes), a colon, and seconds on two digits, at
    most 59. *)
Definition pace_shape (str : string) : Prop :=
  exists M SS,
    0 <= M /\ 0 <= SS <= 59 /\
    str = (format_02d M ++ ":" ++ two_digits SS)%string /\
    all_chars is_digit (format_02d M) = true /\
    (2 <= String.length (format_02d M))%nat /\
    (M <= 99 -> format_02d M = two_digits M /\ is_MM_SS str = true).

(** The float 1e-320, that is 2024 x 2^-1074. *)
Definition tiny_distance : float := S754_finite false 2024 (-1074).

(** ** Notions for the floating-point proofs *)

(** The second half of [binary_round_aux]: the rounded mantissa is brought
    back to the format and classified. *)
Definition finish (s : bool) (m1 e1 : Z) : float :=
  let '(mrs, e2) := shr_fexp prec emax m1 e1 loc_Exact in
  match shr_m mrs with
  | Z0 => S754_zero s
  | Zpos m => if e2 <=? emax - prec then S754_finite s m e2 else S754_infinity s
  | Zneg _ => S754_nan
  end.

(** A finite float of the format: at most 53 bits, exponent in range. *)
Definition wf (x : float) : Prop :=
  match x with
  | S754_finite _ m e => Zdigits2 (Zpos m) <= 53 /\ -1074 <= e <= 971
  | _ => True
  end.

Definition fsign (x : float) : bool :=
  match x with
  | S754_zero s | S754_infinity s | S754_finite s _ _ => s
  | S754_nan => false
  end.

(** The mantissa of 60.0. *)
Definition m60 : Z := 8444249301319680.

(** ** Notions for the further properties *)







(* ****************************************************************** *)
(** * Part II. Theorems *)
(* ****************************************************************** *)

(* ================================================================== *)
(** * Facts about the descending sort *)
(* ================================================================== *)

Section SortingFacts.

Context {A : Type}.
Variable geb : A -> A -> bool.

Lemma insert_desc_perm (x : A) (l : list A) :
  Permutation (x :: l) (insert_desc geb x l).
Proof.
  induction l as [|y l IH]; simpl.
  - apply Permutation_refl.
  - destruct (geb x y).
    + apply Permutation_refl.
    + apply perm_trans with (y :: x :: l).
      * apply perm_swap.
      * apply perm_skip, IH.
Qed.

Lemma sort_desc_perm (l : list A) : Permutation l (sort_desc geb l).
Proof.
  induction l as [|x l IH]; simpl.
  - apply perm_nil.
  - apply perm_trans with (x :: sort_desc geb l).
    + apply perm_skip, IH.
    + apply insert_desc_perm.
Qed.

Lemma insert_desc_in (x y : A) (l : list A) :
  In y (insert_desc geb x l) <-> y = x \/ In y l.
Proof.
  split; intro H.
  - apply Permutation_in with (l' := x :: l) in H.
    + destruct H as [H|H]; auto.
    + apply Permutation_sym, insert_desc_perm.
  - apply Permutation_in with (l := x :: l).
    + apply insert_desc_perm.
    + destruct H as [H|H]; [left; auto | right; auto].
Qed.

Hypothesis geb_total : forall x y, geb x y = true \/ geb y x = true.
Hypothesis geb_trans :
  forall x y z, geb x y = true -> geb y z = true -> geb x z = true.

Lemma insert_desc_sorted (x : A) (l : list A) :
  StronglySorted (fun a b => geb a b = true) l ->
  StronglySorted (fun a b => geb a b = true) (insert_desc geb x l).
Proof.
  induction 1 as [|y l Hs IH Hy]; simpl.
  - constructor; constructor.
  - destruct (geb x y) eqn:E.
    + constructor.
      * constructor; assumption.
      * constructor; [exact E|].
        rewrite Forall_forall in *. intros z Hz.
        apply geb_trans with y; [exact E | apply Hy, Hz].
    + constructor; [exact IH|].
      rewrite Forall_forall in *. intros z Hz.
      apply insert_desc_in in Hz. destruct Hz as [->|Hz].
      * destruct (geb_total x y) as [H|H]; [congruence | exact H].
      * apply Hy, Hz.
Qed.

Lemma sort_desc_sorted (l : list A) :
  StronglySorted (fun a b => geb a b = true) (sort_desc geb l).
Proof.
  induction l as [|x l IH]; simpl.
  - constructor.
  - apply insert_desc_sorted, IH.
Qed.

End SortingFacts.

(* ================================================================== *)
(** * The order of the rows of the list view *)
(* ================================================================== *)

Lemma string_compare_refl (s : string) : String.compare s s = Eq.
Proof. apply String_as_OT.cmp_eq. reflexivity. Qed.

Lemma string_compare_lt_trans (a b c : string) :
  String.compare a b = Lt -> String.compare b c = Lt -> String.compare a c = Lt.
Proof.
  intros H1 H2.
  apply String_as_OT.cmp_lt in H1. apply String_as_OT.cmp_lt in H2.
  apply String_as_OT.cmp_lt. exact (String_as_OT.lt_trans _ _ _ H1 H2).
Qed.

Lemma date_compare_eq (a b : option string) :
  date_compare a b = Eq <-> a = b.
Proof.
  destruct a as [x|], b as [y|]; simpl; split; intro H;
    try discriminate; try reflexivity.
  - apply String_as_OT.cmp_eq in H. congruence.
  - injection H as ->. apply string_compare_refl.
Qed.

Lemma date_compare_antisym (a b : option string) :
  date_compare b a = CompOpp (date_compare a b).
Proof.
  destruct a as [x|], b as [y|]; simpl; try reflexivity.
  apply String.compare_antisym.
Qed.

Lemma date_compare_lt_trans (a b c : option string) :
  date_compare a b = Lt -> date_compare b c = Lt -> date_compare a c = Lt.
Proof.
  destruct a as [x|], b as [y|], c as [z|]; simpl; intros H1 H2;
    try discriminate; try reflexivity.
  exact (string_compare_lt_trans _ _ _ H1 H2).
Qed.

Lemma row_compare_antisym (a b : Athlete_Data) :
  row_compare b a = CompOpp (row_compare a b).
Proof.
  unfold row_compare. rewrite (date_compare_antisym (date a) (date b)).
  destruct (date_compare (date a) (date b)); simpl; try reflexivity.
  apply Z.compare_antisym.
Qed.

Lemma row_compare_lt_trans (a b c : Athlete_Data) :
  row_compare a b = Lt -> row_compare b c = Lt -> row_compare a c = Lt.
Proof.
  unfold row_compare. intros H1 H2.
  destruct (date_compare (date a) (date b)) eqn:Eab; try discriminate;
    destruct (date_compare (date b) (date c)) eqn:Ebc; try discriminate.
  - apply date_compare_eq in Eab. apply date_compare_eq in Ebc.
    rewrite Eab, Ebc. rewrite (proj2 (date_compare_eq _ _) eq_refl).
    rewrite Z.compare_lt_iff in *. lia.
  - apply date_compare_eq in Eab. rewrite Eab, Ebc. reflexivity.
  - apply date_compare_eq in Ebc. rewrite <- Ebc, Eab. reflexivity.
  - rewrite (date_compare_lt_trans _ _ _ Eab Ebc). reflexivity.
Qed.

Lemma row_compare_eq (a b : Athlete_Data) :
  row_compare a b = Eq -> date a = date b /\ id a = id b.
Proof.
  unfold row_compare. intro H.
  destruct (date_compare (date a) (date b)) eqn:E; try discriminate.
  apply date_compare_eq in E. apply Z.compare_eq_iff in H. auto.
Qed.

Lemma row_geb_total (a b : Athlete_Data) :
  row_geb a b = true \/ row_geb b a = true.
Proof.
  unfold row_geb. rewrite (row_compare_antisym a b).
  destruct (row_compare a b); simpl; auto.
Qed.

Lemma row_geb_trans (a b c : Athlete_Data) :
  row_geb a b = true -> row_geb b c = true -> row_geb a c = true.
Proof.
  unfold row_geb. intros H1 H2.
  destruct (row_compare a c) eqn:Eac; try reflexivity.
  destruct (row_compare a b) eqn:Eab; try discriminate.
  - apply row_compare_eq in Eab. destruct Eab as [Hd Hi].
    unfold row_compare in Eac, H2. rewrite Hd, Hi in Eac.
    rewrite Eac in H2. discriminate.
  - assert (Hba : row_compare b a = Lt).
    { rewrite row_compare_antisym, Eab. reflexivity. }
    rewrite (row_compare_lt_trans _ _ _ Hba Eac) in H2. discriminate.
Qed.

Lemma row_geb_before (a b : Athlete_Data) :
  row_geb a b = true -> row_before a b.
Proof.
  unfold row_geb, row_before, row_compare.
  destruct (date_compare (date a) (date b)) eqn:E; intro H.
  - right. apply date_compare_eq in E. split; [exact E|].
    destruct (id a ?= id b) eqn:Ei; try discriminate.
    + apply Z.compare_eq_iff in Ei. lia.
    + apply Z.compare_gt_iff in Ei. lia.
  - discriminate.
  - left. reflexivity.
Qed.

Lemma select_desc_row_before (st : store) :
  StronglySorted row_before (select_desc st).
Proof.
  unfold select_desc.
  assert (H := sort_desc_sorted row_geb row_geb_total row_geb_trans st).
  induction H as [|a l Hs IH Ha]; constructor.
  - exact IH.
  - rewrite Forall_forall in *. intros b Hb. apply row_geb_before, Ha, Hb.
Qed.

(* ================================================================== *)
(** * Grouping by month *)
(* ================================================================== *)

Lemma lookup_dict_append {V : Type} (k k' : string) (r : V) (d : dict (list V)) :
  lookup k (dict_append k' r d) =
  if String.eqb k k'
  then Some (match lookup k d with Some rs => rs ++ [r] | None => [r] end)
  else lookup k d.
Proof.
  induction d as [|[k0 rs] d IH]; simpl.
  - destruct (String.eqb k k'); reflexivity.
  - destruct (String.eqb k' k0) eqn:E0; simpl.
    + apply String.eqb_eq in E0. subst k0.
      destruct (String.eqb k k') eqn:E; reflexivity.
    + destruct (String.eqb k k0) eqn:E1.
      * apply String.eqb_eq in E1. subst k0.
        rewrite String.eqb_sym, E0. reflexivity.
      * exact IH.
Qed.

Lemma keys_dict_append {V : Type} (k : string) (r : V) (d : dict (list V)) :
  keys (dict_append k r d) = if existsb (String.eqb k) (keys d) then keys d else keys d ++ [k].
Proof.
  unfold keys. induction d as [|[k0 rs] d IH]; simpl.
  - reflexivity.
  - destruct (String.eqb k k0) eqn:E; simpl.
    + reflexivity.
    + rewrite IH.
      destruct (existsb (String.eqb k) (map fst d)); reflexivity.
Qed.

Lemma existsb_eqb_In (k : string) (l : list string) :
  existsb (String.eqb k) l = true <-> In k l.
Proof.
  rewrite existsb_exists. split.
  - intros [x [Hx E]]. apply String.eqb_eq in E. subst. exact Hx.
  - intro H. exists k. split; [exact H | apply String.eqb_refl].
Qed.

Lemma lookup_Some_keys {V : Type} (k : string) (d : dict V) :
  In k (keys d) <-> exists v, lookup k d = Some v.
Proof.
  induction d as [|[k0 v0] d IH]; simpl.
  - split; [intros [] | intros [v H]; discriminate].
  - destruct (String.eqb k k0) eqn:E.
    + apply String.eqb_eq in E. subst. split; eauto.
    + rewrite IH. split.
      * intros [H|H]; [subst; rewrite String.eqb_refl in E; discriminate | exact H].
      * auto.
Qed.

Lemma lookup_In {V : Type} (k : string) (v : V) (d : dict V) :
  lookup k d = Some v -> In (k, v) d.
Proof.
  induction d as [|[k0 v0] d IH]; simpl; intro H.
  - discriminate.
  - destruct (String.eqb k k0) eqn:E.
    + apply String.eqb_eq in E. injection H as ->. subst. left. reflexivity.
    + right. apply IH, H.
Qed.

Lemma In_lookup {V : Type} (k : string) (v : V) (d : dict V) :
  NoDup (keys d) -> In (k, v) d -> lookup k d = Some v.
Proof.
  induction d as [|[k0 v0] d IH]; simpl; intros Hnd H.
  - destruct H.
  - inversion Hnd as [|? ? Hnotin Hnd']; subst.
    destruct H as [H|H].
    + injection H as -> ->. rewrite String.eqb_refl. reflexivity.
    + destruct (String.eqb k k0) eqn:E.
      * apply String.eqb_eq in E. subst k0. exfalso. apply Hnotin.
        change (In k (keys d)). apply (in_map fst) in H. exact H.
      * apply IH; assumption.
Qed.

Lemma str_bool_Some (k : string) : str_bool (Some k) = true <-> k <> "".
Proof.
  destruct k; simpl; split; intro H; congruence.
Qed.

Lemma in_month_iff (k : string) (r : Athlete_Data) :
  in_month k r = true <-> month_year r = Some k.
Proof.
  unfold in_month. destruct (month_year r) as [k'|]; split; intro H;
    try discriminate.
  - apply String.eqb_eq in H. congruence.
  - injection H as ->. apply String.eqb_refl.
Qed.

Lemma members_group_step (k : string) (d : dict (list Athlete_Data)) (r : Athlete_Data) :
  members k (group_step d r) =
  members k d ++ (if str_bool (month_year r) && in_month k r then [r] else []).
Proof.
  unfold group_step, in_month, members.
  destruct (month_year r) as [k'|].
  - destruct (str_bool (Some k')); cbn [andb].
    + rewrite lookup_dict_append, (String.eqb_sym k' k).
      destruct (String.eqb k k').
      * destruct (lookup k d); reflexivity.
      * rewrite app_nil_r. reflexivity.
    + rewrite app_nil_r. reflexivity.
  - cbn. rewrite app_nil_r. reflexivity.
Qed.

Lemma members_fold (k : string) (records : list Athlete_Data) :
  forall d,
    members k (fold_left group_step records d) =
    members k d ++ filter (fun r => str_bool (month_year r) && in_month k r) records.
Proof.
  induction records as [|r records IH]; intro d; simpl.
  - rewrite app_nil_r. reflexivity.
  - rewrite IH, members_group_step, <- app_assoc.
    destruct (str_bool (month_year r) && in_month k r); reflexivity.
Qed.

Lemma filter_in_month (k : string) (records : list Athlete_Data) :
  k <> "" ->
  filter (fun r => str_bool (month_year r) && in_month k r) records =
  filter (in_month k) records.
Proof.
  intro Hk. apply filter_ext. intro r.
  destruct (in_month k r) eqn:E.
  - apply in_month_iff in E. rewrite E.
    rewrite (proj2 (str_bool_Some k) Hk). reflexivity.
  - apply andb_false_r.
Qed.

Lemma keys_group_step (k : string) (d : dict (list Athlete_Data)) (r : Athlete_Data) :
  In k (keys (group_step d r)) <->
  In k (keys d) \/ (month_year r = Some k /\ k <> "").
Proof.
  unfold group_step.
  destruct (month_year r) as [k'|] eqn:Em.
  - destruct (str_bool (Some k')) eqn:Eb.
    + rewrite keys_dict_append.
      apply str_bool_Some in Eb.
      destruct (existsb (String.eqb k') (keys d)) eqn:Ee.
      * apply existsb_eqb_In in Ee. split; [auto|].
        intros [H|[H _]]; [exact H | injection H as ->; exact Ee].
      * rewrite in_app_iff. simpl. split.
        -- intros [H|[H|[]]]; [auto | subst; auto].
        -- intros [H|[H _]]; [auto | injection H as ->; auto].
    + split; [auto|]. intros [H|[H Hk]]; [exact H|].
      injection H as ->. apply str_bool_Some in Hk. congruence.
  - simpl. split; [auto|]. intros [H|[H _]]; [exact H | discriminate].
Qed.

Lemma keys_fold (k : string) (records : list Athlete_Data) :
  forall d,
    In k (keys (fold_left group_step records d)) <->
    In k (keys d) \/ (exists r, In r records /\ month_year r = Some k /\ k <> "").
Proof.
  induction records as [|r records IH]; intro d; simpl.
  - split; [auto|]. intros [H|[r [[] _]]]. exact H.
  - rewrite IH, keys_group_step. split.
    + intros [[H|H]|[r' [H1 H2]]].
      * left. exact H.
      * right. exists r. auto.
      * right. exists r'. auto.
    + intros [H|[r' [[H1|H1] H2]]].
      * left. left. exact H.
      * subst r'. left. right. exact H2.
      * right. exists r'. auto.
Qed.

Lemma NoDup_keys_group_step (d : dict (list Athlete_Data)) (r : Athlete_Data) :
  NoDup (keys d) -> NoDup (keys (group_step d r)).
Proof.
  intro H. unfold group_step.
  destruct (str_bool (month_year r)); [|exact H].
  destruct (month_year r) as [k|]; [|exact H].
  rewrite keys_dict_append.
  destruct (existsb (String.eqb k) (keys d)) eqn:E; [exact H|].
  apply NoDup_app; [exact H | constructor; [intros [] | constructor] |].
  intros x Hx [Hk|[]]. subst x.
  apply existsb_eqb_In in Hx. congruence.
Qed.

Lemma NoDup_keys_fold (records : list Athlete_Data) :
  forall d, NoDup (keys d) -> NoDup (keys (fold_left group_step records d)).
Proof.
  induction records as [|r records IH]; intros d H; simpl.
  - exact H.
  - apply IH, NoDup_keys_group_step, H.
Qed.

(** The groups of the list view: the keys are the non-empty months of the
    records, each once, and a month maps to its records in reading order. *)
Lemma group_by_month_keys (records : list Athlete_Data) (k : string) :
  In k (keys (group_by_month records)) <->
  exists r, In r records /\ month_year r = Some k /\ k <> "".
Proof.
  unfold group_by_month. rewrite keys_fold. simpl. split.
  - intros [[]|H]. exact H.
  - auto.
Qed.

Lemma group_by_month_NoDup (records : list Athlete_Data) :
  NoDup (keys (group_by_month records)).
Proof. apply NoDup_keys_fold. constructor. Qed.

Lemma group_by_month_lookup (records : list Athlete_Data) (k : string) :
  In k (keys (group_by_month records)) ->
  lookup k (group_by_month records) = Some (filter (in_month k) records).
Proof.
  intro Hk.
  assert (Hne : k <> "").
  { apply group_by_month_keys in Hk. destruct Hk as [r [_ [_ H]]]. exact H. }
  destruct (proj1 (lookup_Some_keys k _) Hk) as [rs Hrs].
  rewrite Hrs. f_equal.
  assert (Hm := members_fold k records []).
  unfold members at 1 in Hm. fold (group_by_month records) in Hm.
  rewrite Hrs in Hm. rewrite Hm. simpl.
  apply filter_in_month, Hne.
Qed.

Lemma keys_monthly_totals_of (d : dict (list Athlete_Data)) :
  keys (monthly_totals_of d) = keys d.
Proof.
  unfold keys, monthly_totals_of. rewrite map_map. reflexivity.
Qed.

Lemma lookup_monthly_totals_of (k : string) (d : dict (list Athlete_Data)) :
  lookup k (monthly_totals_of d) = option_map totals_of (lookup k d).
Proof.
  induction d as [|[k0 rs] d IH]; simpl.
  - reflexivity.
  - destruct (String.eqb k k0); [reflexivity | exact IH].
Qed.

(* ================================================================== *)
(** * Sorting the months *)
(* ================================================================== *)

Lemma datetime_leb_iff (a b : datetime) :
  datetime_leb a b = true <->
  (year a < year b \/
   (year a = year b /\
    (month a < month b \/ (month a = month b /\ day a <= day b)))).
Proof.
  unfold datetime_leb, datetime_compare.
  destruct (Z.compare_spec (year a) (year b));
    destruct (Z.compare_spec (month a) (month b));
    destruct (Z.compare_spec (day a) (day b));
    split; intro; try discriminate; try reflexivity; lia.
Qed.

Lemma key_geb_total (a b : string * datetime) :
  key_geb a b = true \/ key_geb b a = true.
Proof.
  unfold key_geb. rewrite !datetime_leb_iff. lia.
Qed.

Lemma key_geb_trans (a b c : string * datetime) :
  key_geb a b = true -> key_geb b c = true -> key_geb a c = true.
Proof.
  unfold key_geb. rewrite !datetime_leb_iff. lia.
Qed.

Lemma make_datetime_fields (y m d : Z) (p : datetime) :
  make_datetime y m d = Some p ->
  year p = y /\ month p = m /\ day p = d /\ valid_date y m d = true.
Proof.
  unfold make_datetime. destruct (valid_date y m d); intro H; [|discriminate].
  injection H as <-. auto.
Qed.

Lemma strptime_mY_day (k : string) (p : datetime) :
  strptime_mY k = Some p -> day p = 1.
Proof.
  unfold strptime_mY.
  destruct (parse_m _) as [[m l1]|]; [|discriminate].
  destruct (expect dash l1) as [l2|]; [|discriminate].
  destruct (parse_Y l2) as [[y [|c l3]]|]; try discriminate.
  intro H. apply make_datetime_fields in H. tauto.
Qed.

Lemma month_keys_inv (ks : list string) :
  forall keyed,
    month_keys ks = Ret keyed ->
    map fst keyed = ks /\
    Forall (fun kp => strptime_mY (fst kp) = Some (snd kp)) keyed.
Proof.
  induction ks as [|k ks IH]; simpl; intros keyed H.
  - injection H as <-. split; constructor.
  - destruct (strptime_mY k) as [p|] eqn:Ep; simpl in H; [|discriminate].
    destruct (month_keys ks) as [rest|e]; simpl in H; [|discriminate].
    injection H as <-. destruct (IH rest eq_refl) as [H1 H2].
    split; simpl.
    + rewrite H1. reflexivity.
    + constructor; [exact Ep | exact H2].
Qed.

Lemma month_keys_total (ks : list string) :
  (forall k, In k ks -> strptime_mY k <> None) ->
  exists keyed, month_keys ks = Ret keyed.
Proof.
  induction ks as [|k ks IH]; simpl; intro H.
  - eauto.
  - destruct (strptime_mY k) as [p|] eqn:Ep.
    + destruct IH as [rest Hrest]; [intros; apply H; auto|].
      rewrite Hrest. simpl. eauto.
    + exfalso. apply (H k); auto.
Qed.

Lemma month_keys_raises (ks : list string) (k : string) :
  In k ks -> strptime_mY k = None -> month_keys ks = Raise ValueError.
Proof.
  induction ks as [|k0 ks IH]; simpl; intros Hin Hk.
  - destruct Hin.
  - destruct (strptime_mY k0) as [p|] eqn:Ep; simpl; [|reflexivity].
    destruct Hin as [->|Hin]; [congruence|].
    rewrite (IH Hin Hk). reflexivity.
Qed.

Lemma key_geb_not_before (a b : string * datetime) :
  strptime_mY (fst a) = Some (snd a) ->
  strptime_mY (fst b) = Some (snd b) ->
  key_geb a b = true -> month_not_before (fst a) (fst b).
Proof.
  intros Ha Hb H. exists (snd a), (snd b). split; [exact Ha|]. split; [exact Hb|].
  unfold key_geb in H. apply datetime_leb_iff in H.
  apply strptime_mY_day in Ha. apply strptime_mY_day in Hb. lia.
Qed.

Lemma StronglySorted_map_fst (keyed : list (string * datetime)) :
  Forall (fun kp => strptime_mY (fst kp) = Some (snd kp)) keyed ->
  StronglySorted (fun a b => key_geb a b = true) keyed ->
  StronglySorted month_not_before (map fst keyed).
Proof.
  intros Hall Hs. induction Hs as [|a l Hs IH Ha]; simpl.
  - constructor.
  - inversion Hall as [|? ? Hka Hl]; subst. constructor.
    + apply IH, Hl.
    + rewrite Forall_forall in *. intros k Hk.
      apply in_map_iff in Hk. destruct Hk as [b [<- Hb]].
      apply key_geb_not_before; auto.
Qed.

(** The sorted months: the same months, the latest first. *)
Lemma sorted_by_month_desc_spec (ks l : list string) :
  sorted_by_month_desc ks = Ret l ->
  Permutation ks l /\ StronglySorted month_not_before l.
Proof.
  unfold sorted_by_month_desc. intro H.
  destruct (month_keys ks) as [keyed|e] eqn:Ek; simpl in H; [|discriminate].
  injection H as <-.
  destruct (month_keys_inv ks keyed Ek) as [Hfst Hall].
  assert (Hperm := sort_desc_perm key_geb keyed).
  split.
  - rewrite <- Hfst. apply Permutation_map, Hperm.
  - apply StronglySorted_map_fst.
    + rewrite Forall_forall in *. intros kp Hkp. apply Hall.
      apply Permutation_in with (l := sort_desc key_geb keyed);
        [apply Permutation_sym, Hperm | exact Hkp].
    + apply sort_desc_sorted; [exact key_geb_total | exact key_geb_trans].
Qed.

Lemma sorted_by_month_desc_total (ks : list string) :
  (forall k, In k ks -> strptime_mY k <> None) ->
  exists l, sorted_by_month_desc ks = Ret l.
Proof.
  intro H. unfold sorted_by_month_desc.
  destruct (month_keys_total ks H) as [keyed ->]. simpl. eauto.
Qed.

Lemma aggregate_inv (records : list Athlete_Data) (v : view) :
  aggregate records = Ret v ->
  monthly_data v = group_by_month records /\
  monthly_totals v = monthly_totals_of (group_by_month records) /\
  sorted_by_month_desc (keys (group_by_month records)) = Ret (sorted_months v) /\
  total_distance v = sum_distance records /\
  total_calories v = sum_calories records.
Proof.
  unfold aggregate. intro H.
  destruct (sorted_by_month_desc _) as [sm|e]; simpl in H; [|discriminate].
  injection H as <-. simpl. auto.
Qed.

Lemma aggregate_total (records : list Athlete_Data) :
  (forall r k, In r records -> month_year r = Some k -> k <> "" ->
               strptime_mY k <> None) ->
  exists v, aggregate records = Ret v.
Proof.
  intro H. unfold aggregate.
  destruct (sorted_by_month_desc_total (keys (group_by_month records))) as [l ->].
  - intros k Hk. apply group_by_month_keys in Hk.
    destruct Hk as [r [Hr [Hm Hne]]]. exact (H r k Hr Hm Hne).
  - simpl. eauto.
Qed.

Lemma aggregate_raises (records : list Athlete_Data) (r : Athlete_Data) (k : string) :
  In r records -> month_year r = Some k -> k <> "" -> strptime_mY k = None ->
  aggregate records = Raise ValueError.
Proof.
  intros Hr Hm Hne Hk. unfold aggregate, sorted_by_month_desc.
  rewrite (month_keys_raises _ k); [reflexivity | | exact Hk].
  apply group_by_month_keys. exists r. auto.
Qed.

Lemma MM_YYYY_same_month (pa pb : datetime) :
  year pa = year pb -> month pa = month pb -> MM_YYYY pa = MM_YYYY pb.
Proof. unfold MM_YYYY. intros -> ->. reflexivity. Qed.

Lemma month_after_of_distinct (a b : string) :
  canonical_month a -> canonical_month b -> a <> b ->
  month_not_before a b -> month_after a b.
Proof.
  intros [pa [Ha Hpa]] [pb [Hb Hpb]] Hab [qa [qb [Hqa [Hqb Hord]]]].
  rewrite Ha in Hqa. injection Hqa as <-.
  rewrite Hb in Hqb. injection Hqb as <-.
  exists pa, pb. split; [exact Ha|]. split; [exact Hb|].
  destruct Hord as [Hy|[Hy Hm]]; [left; exact Hy|].
  destruct (Z.eq_dec (month pb) (month pa)) as [Heq|Hne].
  - exfalso. apply Hab. rewrite <- Hpa, <- Hpb.
    apply MM_YYYY_same_month; congruence.
  - right. split; [exact Hy | lia].
Qed.

Lemma sorted_distinct_canonical (l : list string) :
  StronglySorted month_not_before l -> NoDup l ->
  (forall k, In k l -> canonical_month k) ->
  StronglySorted month_after l.
Proof.
  induction 1 as [|a l Hs IH Ha]; intros Hnd Hc.
  - constructor.
  - inversion Hnd as [|? ? Hnotin Hnd']; subst. constructor.
    + apply IH; [exact Hnd' | intros k Hk; apply Hc; right; exact Hk].
    + rewrite Forall_forall in *. intros b Hb.
      apply month_after_of_distinct.
      * apply Hc. left. reflexivity.
      * apply Hc. right. exact Hb.
      * intros ->. apply Hnotin, Hb.
      * apply Ha, Hb.
Qed.

(* ================================================================== *)
(** * The aggregation of the list view *)
(* ================================================================== *)

(** C5. When every record has a month that reads as [%m-%Y], the sorted
    months are the distinct months of the records, each once, the most
    recent first; when the months are in the zero-filled form MM-YYYY, no
    two of them fall in the same calendar month, so the order is
    strict; months 01-2024 and 02-2024 come out as 02-2024, 01-2024. *)
Theorem sorted_months_most_recent_first :
  (forall records : list Athlete_Data,
      (forall r, In r records ->
                 exists k, month_year r = Some k /\ strptime_mY k <> None) ->
      exists v, aggregate records = Ret v /\
                NoDup (sorted_months v) /\
                (forall k, In k (sorted_months v) <->
                           exists r, In r records /\ month_year r = Some k) /\
                StronglySorted month_not_before (sorted_months v) /\
                ((forall k, In k (sorted_months v) -> canonical_month k) ->
                 StronglySorted month_after (sorted_months v))) /\
  (exists v, aggregate sample_rows = Ret v /\
             sorted_months v = ["02-2024"; "01-2024"]).
Proof.
  split.
  - intros records Hall.
    assert (Hne : forall r k, In r records -> month_year r = Some k -> k <> "").
    { intros r k Hr Hm ->. destruct (Hall r Hr) as [k' [Hk' Hp]].
      rewrite Hm in Hk'. injection Hk' as <-. apply Hp. reflexivity. }
    destruct (aggregate_total records) as [v Hv].
    { intros r k Hr Hm _. destruct (Hall r Hr) as [k' [Hk' Hp]].
      rewrite Hm in Hk'. injection Hk' as <-. exact Hp. }
    exists v. split; [exact Hv|].
    destruct (aggregate_inv records v Hv) as [_ [_ [Hsm _]]].
    destruct (sorted_by_month_desc_spec _ _ Hsm) as [Hperm Hsorted].
    assert (Hnodup : NoDup (sorted_months v)).
    { apply (Permutation_NoDup Hperm), group_by_month_NoDup. }
    split; [exact Hnodup|]. split; [|split].
    + intro k. split.
      * intro Hk. apply (Permutation_in _ (Permutation_sym Hperm)) in Hk.
        apply group_by_month_keys in Hk. destruct Hk as [r [Hr [Hm _]]]. eauto.
      * intros [r [Hr Hm]]. apply (Permutation_in _ Hperm).
        apply group_by_month_keys. exists r. eauto.
    + exact Hsorted.
    + intro Hcanon. apply (sorted_distinct_canonical _ Hsorted Hnodup Hcanon).
  - eexists. split; vm_compute; reflexivity.
Qed.

Lemma sorted_months_most_recent_first_witness :
  exists v, aggregate sample_rows = Ret v /\
            NoDup (sorted_months v) /\
            StronglySorted month_not_before (sorted_months v).
Proof.
  destruct (proj1 sorted_months_most_recent_first sample_rows) as [v [Hv [Hn [_ [Hs _]]]]].
  - intros r [<-|[<-|[<-|[]]]]; eexists; (split; [reflexivity | discriminate]).
  - exists v. auto.
Defined.

(** C10. The list view reads every present month with [%m-%Y].  It returns
    for every table whose present months all read so, and it raises
    [ValueError] as soon as one present month does not: for instance on a
    table holding the month 13-2024. *)
Theorem home_total_iff_months_parse :
  (forall st : store,
      (forall r k, In r st -> month_year r = Some k -> k <> "" ->
                   strptime_mY k <> None) ->
      exists v, home st = Ret v) /\
  (forall st : store,
      (exists r k, In r st /\ month_year r = Some k /\ k <> "" /\
                   strptime_mY k = None) ->
      home st = Raise ValueError) /\
  (exists st : store,
      (exists r k, In r st /\ month_year r = Some k /\ k <> "" /\
                   strptime_mY k = None) /\
      home st = Raise ValueError).
Proof.
  split; [|split].
  - intros st H. unfold home. apply aggregate_total.
    intros r k Hr. apply H.
    apply (Permutation_in _ (Permutation_sym (sort_desc_perm row_geb st))), Hr.
  - intros st [r [k [Hr [Hm [Hne Hk]]]]]. unfold home.
    apply (aggregate_raises _ r k); auto.
    apply (Permutation_in _ (sort_desc_perm row_geb st)), Hr.
  - exists [sample_row 1 "05-01-2024" 5 "13-2024"]. split.
    + eexists; eexists. split; [left; reflexivity|].
      split; [reflexivity|]. split; [discriminate | reflexivity].
    + reflexivity.
Qed.

Lemma home_total_iff_months_parse_witness :
  (exists v, home sample_rows = Ret v) /\
  home [sample_row 1 "05-01-2024" 5 "13-2024"] = Raise ValueError.
Proof.
  split.
  - apply (proj1 home_total_iff_months_parse).
    intros r k [<-|[<-|[<-|[]]]] Hm _; injection Hm as <-; discriminate.
  - apply (proj1 (proj2 home_total_iff_months_parse)).
    eexists; eexists. split; [left; reflexivity|].
    split; [reflexivity|]. split; [discriminate | reflexivity].
Defined.

(* ================================================================== *)
(** * Texts: splitting and decimal digits *)
(* ================================================================== *)

Lemma split_no_sep (sep : ascii) (s : string) :
  all_chars (fun c => negb (Ascii.eqb c sep)) s = true -> split sep s = [s].
Proof.
  induction s as [|c s IH]; simpl; intro H.
  - reflexivity.
  - apply andb_true_iff in H. destruct H as [Hc Hs].
    apply negb_true_iff in Hc. rewrite Hc, (IH Hs). reflexivity.
Qed.

Lemma split_app_sep (sep : ascii) (a b : string) :
  all_chars (fun c => negb (Ascii.eqb c sep)) a = true ->
  split sep (a ++ String sep b) = a :: split sep b.
Proof.
  induction a as [|c a IH]; simpl; intro H.
  - rewrite Ascii.eqb_refl. reflexivity.
  - apply andb_true_iff in H. destruct H as [Hc Ha].
    apply negb_true_iff in Hc. rewrite Hc, (IH Ha). reflexivity.
Qed.

Lemma all_chars_app (P : ascii -> bool) (a b : string) :
  all_chars P (a ++ b) = all_chars P a && all_chars P b.
Proof.
  induction a as [|c a IH]; simpl.
  - reflexivity.
  - rewrite IH, andb_assoc. reflexivity.
Qed.

Lemma all_chars_impl (P Q : ascii -> bool) (s : string) :
  (forall c, P c = true -> Q c = true) ->
  all_chars P s = true -> all_chars Q s = true.
Proof.
  intro HPQ. induction s as [|c s IH]; simpl; intro H.
  - reflexivity.
  - apply andb_true_iff in H. destruct H as [Hc Hs].
    rewrite (HPQ c Hc), (IH Hs). reflexivity.
Qed.

Lemma string_of_uint_digits (d : Decimal.uint) :
  all_chars is_digit (NilEmpty.string_of_uint d) = true.
Proof.
  induction d; simpl; auto.
Qed.

Lemma decimal_digits (n : N) : all_chars is_digit (decimal n) = true.
Proof.
  unfold decimal, NilZero.string_of_uint.
  destruct (N.to_uint n); try reflexivity; apply string_of_uint_digits.
Qed.

Lemma zeros_digits (k : nat) : all_chars is_digit (zeros k) = true.
Proof.
  induction k as [|k IH]; simpl; auto.
Qed.

Lemma zpad_digits (w : nat) (n : Z) : all_chars is_digit (zpad w n) = true.
Proof.
  unfold zpad. rewrite all_chars_app, zeros_digits, decimal_digits. reflexivity.
Qed.

Lemma is_digit_not (sep : ascii) (c : ascii) :
  is_digit sep = false -> is_digit c = true -> negb (Ascii.eqb c sep) = true.
Proof.
  intros Hs Hc. apply negb_true_iff. apply Ascii.eqb_neq. congruence.
Qed.

Lemma zpad_no_dash (w : nat) (n : Z) :
  all_chars (fun c => negb (Ascii.eqb c dash)) (zpad w n) = true.
Proof.
  apply all_chars_impl with (P := is_digit); [|apply zpad_digits].
  intros c Hc. apply is_digit_not; [reflexivity | exact Hc].
Qed.

Lemma zpad_not_empty (w : nat) (n : Z) : zpad w n <> "".
Proof.
  unfold zpad, decimal, NilZero.string_of_uint.
  destruct (zeros _); simpl; [|discriminate].
  destruct (N.to_uint (Z.to_N n)) eqn:E; simpl; try discriminate.
Qed.

Lemma strftime_Y_no_dash (y : Z) :
  all_chars (fun c => negb (Ascii.eqb c dash)) (strftime_Y y) = true.
Proof.
  apply all_chars_impl with (P := is_digit); [|apply decimal_digits].
  intros c Hc. apply is_digit_not; [reflexivity | exact Hc].
Qed.

(** The month [get_month_year] reads in a printed date is the printed month. *)
Lemma get_month_year_strftime (p : datetime) :
  get_month_year (Some (strftime_dmY p)) = Some (strftime_mY p).
Proof.
  unfold get_month_year, strftime_dmY, strftime_mY.
  assert (Hne : str_bool (Some (zpad 2 (day p) ++ "-" ++ zpad 2 (month p) ++ "-" ++ strftime_Y (year p))%string) = true).
  { apply str_bool_Some. intro H.
    destruct (zpad 2 (day p)) eqn:E; [exact (zpad_not_empty _ _ E) | discriminate]. }
  rewrite Hne.
  change ("-" ++ zpad 2 (month p) ++ "-" ++ strftime_Y (year p))%string
    with (String dash (zpad 2 (month p) ++ String dash (strftime_Y (year p)))).
  rewrite split_app_sep by apply zpad_no_dash.
  rewrite split_app_sep by apply zpad_no_dash.
  rewrite split_no_sep by apply strftime_Y_no_dash.
  reflexivity.
Qed.

Lemma below_by_cases (P : Z -> bool) (bound : Z) :
  forallb P (map Z.of_nat (seq 0 (Z.to_nat bound))) = true ->
  forall n, 0 <= n < bound -> P n = true.
Proof.
  intros H n Hn. rewrite forallb_forall in H. apply H.
  apply in_map_iff. exists (Z.to_nat n). split; [lia|].
  apply in_seq. lia.
Qed.

Lemma zpad_two_digits (n : Z) : 0 <= n <= 99 -> zpad 2 n = two_digits n.
Proof.
  intro Hn. apply String.eqb_eq.
  apply (below_by_cases (fun n => String.eqb (zpad 2 n) (two_digits n)) 100);
    [vm_compute; reflexivity | lia].
Qed.

(** From the year 1000 on, [%Y] prints four digits. *)
Lemma strftime_Y_four_digits (y : Z) :
  1000 <= y <= 9999 -> strftime_Y y = four_digits y.
Proof.
  intro Hy.
  assert (H : (if y <? 1000 then true
               else String.eqb (strftime_Y y) (four_digits y)) = true).
  { apply (below_by_cases
             (fun n => if n <? 1000 then true
                       else String.eqb (strftime_Y n) (four_digits n)) 10000);
      [vm_compute; reflexivity | lia]. }
  destruct (Z.ltb_spec y 1000); [lia|]. apply String.eqb_eq, H.
Qed.

(** Below the year 1000, [%Y] prints fewer than four characters. *)
Lemma strftime_Y_short (y : Z) :
  y < 1000 -> (String.length (strftime_Y y) < 4)%nat.
Proof.
  intro Hy. destruct (Z.ltb_spec y 0) as [Hneg|Hpos].
  - destruct y; try lia. simpl. lia.
  - apply Nat.ltb_lt.
    apply (below_by_cases
             (fun n => (String.length (strftime_Y n) <? 4)%nat) 1000);
      [vm_compute; reflexivity | lia].
Qed.

Lemma valid_date_bounds (y m d : Z) :
  valid_date y m d = true -> 1 <= y <= 9999 /\ 1 <= m <= 12 /\ 1 <= d <= 31.
Proof.
  unfold valid_date, days_in_month. intro H.
  repeat (apply andb_true_iff in H; destruct H as [H ?]).
  destruct (m =? 2); [destruct (is_leap y)|];
    [| | destruct (_ || _)]; lia.
Qed.

Lemma strptime_Ymd_valid (raw : string) (p : datetime) :
  strptime_Ymd raw = Some p ->
  valid_date (year p) (month p) (day p) = true.
Proof.
  unfold strptime_Ymd.
  destruct (parse_Y _) as [[y l1]|]; [|discriminate].
  destruct (expect dash l1) as [l2|]; [|discriminate].
  destruct (parse_m l2) as [[m l3]|]; [|discriminate].
  destruct (expect dash l3) as [l4|]; [|discriminate].
  destruct (parse_d l4) as [[d [|c l5]]|]; try discriminate.
  intro H. apply make_datetime_fields in H.
  destruct H as [-> [-> [-> H]]]. exact H.
Qed.

(** What [strftime] prints for a day: day and month on two digits, then
    the year as [%Y] prints it. *)
Lemma strftime_of_valid (p : datetime) :
  valid_date (year p) (month p) (day p) = true ->
  strftime_dmY p
  = (two_digits (day p) ++ "-" ++ two_digits (month p) ++ "-" ++ strftime_Y (year p))%string /\
  strftime_mY p = (two_digits (month p) ++ "-" ++ strftime_Y (year p))%string.
Proof.
  intro H. apply valid_date_bounds in H.
  unfold strftime_dmY, strftime_mY.
  rewrite !zpad_two_digits by lia. split; reflexivity.
Qed.

(** From the year 1000 on, a day prints as DD-MM-YYYY and its month as
    MM-YYYY. *)
Lemma strftime_canonical (p : datetime) :
  valid_date (year p) (month p) (day p) = true -> 1000 <= year p ->
  strftime_dmY p = DD_MM_YYYY p /\ strftime_mY p = MM_YYYY p.
Proof.
  intros H Hy. destruct (strftime_of_valid p H) as [E1 E2].
  apply valid_date_bounds in H.
  rewrite E1, E2. unfold DD_MM_YYYY, MM_YYYY.
  rewrite strftime_Y_four_digits by lia. split; reflexivity.
Qed.

(* ================================================================== *)
(** * The table and the handlers *)
(* ================================================================== *)

Arguments calculate_pace : simpl never.

Lemma get_Some_id (st : store) (i : Z) (r : Athlete_Data) :
  get st i = Some r -> id r = i /\ In r st.
Proof.
  induction st as [|r0 st IH]; simpl; intro H.
  - discriminate.
  - destruct (id r0 =? i) eqn:E.
    + injection H as <-. apply Z.eqb_eq in E. auto.
    + destruct (IH H). auto.
Qed.

Lemma get_put_same (st : store) (r r' : Athlete_Data) :
  get st (id r') = Some r -> get (put st r') (id r') = Some r'.
Proof.
  induction st as [|r0 st IH]; simpl; intro H.
  - discriminate.
  - destruct (id r0 =? id r') eqn:E; simpl.
    + rewrite Z.eqb_refl. reflexivity.
    + rewrite E. apply IH, H.
Qed.

Lemma get_put_other (st : store) (r' : Athlete_Data) (j : Z) :
  j <> id r' -> get (put st r') j = get st j.
Proof.
  intro Hj. induction st as [|r0 st IH]; simpl.
  - reflexivity.
  - destruct (id r0 =? id r') eqn:E; simpl.
    + apply Z.eqb_eq in E.
      destruct (id r' =? j) eqn:E1; [apply Z.eqb_eq in E1; congruence|].
      destruct (id r0 =? j) eqn:E2; [apply Z.eqb_eq in E2; congruence|].
      reflexivity.
    + destruct (id r0 =? j); [reflexivity | exact IH].
Qed.

Lemma Forall_put (P : Athlete_Data -> Prop) (st : store) (r : Athlete_Data) :
  Forall P st -> P r -> Forall P (put st r).
Proof.
  intros Hst Hr. induction Hst as [|r0 st H0 Hst IH]; simpl.
  - constructor.
  - destruct (id r0 =? id r); constructor; auto.
Qed.

Lemma Forall_remove (P : Athlete_Data -> Prop) (st : store) (i : Z) :
  Forall P st -> Forall P (remove st i).
Proof.
  intro Hst. induction Hst as [|r0 st H0 Hst IH]; simpl.
  - constructor.
  - destruct (id r0 =? i); [exact Hst | constructor; auto].
Qed.

Section HandlerFacts.

Variable py_float : string -> option float.

(** What a completed POST /add appends. *)
Lemma add_inv (f : form) (now : datetime) (st st' : store) :
  add py_float f now st = Ret st' ->
  exists r p,
    st' = st ++ [r] /\
    id r = next_id st /\
    date r = Some (strftime_dmY p) /\
    month_year r = Some (strftime_mY p) /\
    (forall raw q, f_date f = Some raw -> strptime_Ymd raw = Some q -> p = q) /\
    activity_type r = Some (get_default (f_activity_type f) "Running") /\
    distance r = Some (float_of_field py_float (f_distance f)) /\
    time r = Some (get_default (f_time f) "00:00:00") /\
    calories r = Some (float_of_field py_float (f_calories f)) /\
    calculate_pace (distance r) (time r) = Ret (pace r).
Proof.
  unfold add. intro H.
  destruct (calculate_pace _ _) as [pc|e] eqn:Ep; simpl in H; [|discriminate].
  injection H as <-.
  eexists. eexists. split; [reflexivity|]. simpl.
  repeat (split; [reflexivity|]).
  split; [|repeat (split; [reflexivity|]); exact Ep].
  intros raw q Hraw Hq. rewrite Hraw.
  destruct (str_bool (Some raw)) eqn:Eb.
  - rewrite Hq. reflexivity.
  - destruct raw; [discriminate Hq | discriminate Eb].
Qed.

(** What a completed POST /edit writes. *)
Lemma edit_inv (f : form) (st st' : store) :
  edit py_float f st = Ret st' ->
  exists i r r',
    int_of_field (f_id f) = Ret i /\ get st i = Some r /\
    st' = put st r' /\
    id r' = id r /\
    (date r', month_year r') = edit_date (f_date f) r /\
    activity_type r' = Some (get_default (f_activity_type f) "Running") /\
    distance r' = Some (float_of_field py_float (f_distance f)) /\
    time r' = Some (get_default (f_time f) "00:00:00") /\
    calories r' = Some (float_of_field py_float (f_calories f)) /\
    calculate_pace (distance r') (time r') = Ret (pace r').
Proof.
  unfold edit, get_or_404. intro H.
  destruct (int_of_field (f_id f)) as [i|e] eqn:Ei; simpl in H; [|discriminate].
  destruct (get st i) as [r|] eqn:Eg; simpl in H; [|discriminate].
  destruct (calculate_pace _ _) as [pc|e] eqn:Ep; simpl in H; [|discriminate].
  injection H as <-.
  exists i, r. eexists. split; [reflexivity|]. split; [exact Eg|].
  split; [reflexivity|]. simpl.
  split; [reflexivity|]. split; [symmetry; apply surjective_pairing|].
  repeat (split; [reflexivity|]). exact Ep.
Qed.

Lemma edit_date_derived (new_date_raw : option string) (r : Athlete_Data) :
  month_year r = get_month_year (date r) ->
  snd (edit_date new_date_raw r) = get_month_year (fst (edit_date new_date_raw r)).
Proof.
  intro Hr. unfold edit_date.
  destruct (str_bool new_date_raw); [|exact Hr].
  destruct new_date_raw as [raw|]; [|exact Hr].
  destruct (strptime_Ymd raw) as [p|]; [|exact Hr].
  simpl. symmetry. apply get_month_year_strftime.
Qed.

Lemma edit_date_invalid (new_date_raw : option string) (r : Athlete_Data) :
  str_bool new_date_raw = false \/
  (exists raw, new_date_raw = Some raw /\ strptime_Ymd raw = None) ->
  edit_date new_date_raw r = (date r, month_year r).
Proof.
  unfold edit_date. intros [H|[raw [-> H]]].
  - rewrite H. reflexivity.
  - rewrite H. destruct (str_bool (Some raw)); reflexivity.
Qed.

Lemma add_preserves_derived (f : form) (now : datetime) (st st' : store) :
  Forall derived st -> add py_float f now st = Ret st' -> Forall derived st'.
Proof.
  intros Hst H. apply add_inv in H.
  destruct H as [r [p [-> [_ [Hd [Hm [_ [_ [_ [_ [_ Hp]]]]]]]]]]].
  apply Forall_app. split; [exact Hst|]. constructor; [|constructor].
  split; [exact Hp|]. rewrite Hd, Hm. symmetry. apply get_month_year_strftime.
Qed.

Lemma edit_preserves_derived (f : form) (st st' : store) :
  Forall derived st -> edit py_float f st = Ret st' -> Forall derived st'.
Proof.
  intros Hst H. apply edit_inv in H.
  destruct H as [i [r [r' [_ [Hg [-> [_ [Hdm [_ [_ [_ [_ Hp]]]]]]]]]]]].
  apply Forall_put; [exact Hst|]. split; [exact Hp|].
  apply get_Some_id in Hg. destruct Hg as [_ Hin].
  rewrite Forall_forall in Hst. destruct (Hst r Hin) as [_ Hr].
  assert (H := edit_date_derived (f_date f) r Hr).
  rewrite <- Hdm in H. exact H.
Qed.

Lemma delete_preserves_derived (arg_id : option string) (st st' : store) :
  Forall derived st -> delete_data arg_id st = Ret st' -> Forall derived st'.
Proof.
  unfold delete_data, get_or_404. intros Hst H.
  destruct (int_of_field arg_id) as [i|e]; simpl in H; [|discriminate].
  destruct (get st i) as [r|]; simpl in H; [|discriminate].
  injection H as <-. apply Forall_remove, Hst.
Qed.

End HandlerFacts.

(* ================================================================== *)
(** * Create and edit: dates, months and derived fields *)
(* ================================================================== *)

(** C6. A POST /add whose date reads as [%Y-%m-%d] appends a record whose
    date and month are the day and the month read, on two digits each, then
    the year as [%Y] prints it.  From the year 1000 on these are the
    canonical DD-MM-YYYY and MM-YYYY (2024-03-15 gives 15-03-2024 and
    03-2024); below the year 1000 they never are: the date 0999-03-15 is
    stored as 15-03-999 with the month 03-999, and the list view then
    raises [ValueError] on the table.  The request completes whenever the
    pace computation does. *)
Theorem add_canonical_date_from_year_1000_only :
  (forall py_float f now st st' raw p,
      f_date f = Some raw -> strptime_Ymd raw = Some p ->
      add py_float f now st = Ret st' ->
      exists r,
        st' = st ++ [r] /\
        date r = Some (two_digits (day p) ++ "-" ++ two_digits (month p)
                         ++ "-" ++ strftime_Y (year p))%string /\
        month_year r = Some (two_digits (month p) ++ "-" ++ strftime_Y (year p))%string /\
        month_year r = get_month_year (date r) /\
        (1000 <= year p ->
         date r = Some (DD_MM_YYYY p) /\ month_year r = Some (MM_YYYY p)) /\
        (year p < 1000 ->
         date r <> Some (DD_MM_YYYY p) /\ month_year r <> Some (MM_YYYY p))) /\
  (forall py_float f now st pc,
      calculate_pace (Some (float_of_field py_float (f_distance f)))
                     (Some (get_default (f_time f) "00:00:00")) = Ret pc ->
      exists st', add py_float f now st = Ret st') /\
  (forall py_float f now st st',
      f_date f = Some "2024-03-15" ->
      add py_float f now st = Ret st' ->
      exists r, st' = st ++ [r] /\
                date r = Some "15-03-2024" /\ month_year r = Some "03-2024") /\
  (strptime_Ymd "0999-03-15" = Some {| year := 999; month := 3; day := 15 |} /\
   add no_float (form_with_date "0999-03-15") some_day [] = Ret [record_of_year_999] /\
   date record_of_year_999 = Some "15-03-999" /\
   month_year record_of_year_999 = Some "03-999" /\
   home [record_of_year_999] = Raise ValueError).
Proof.
  assert (General : forall py_float f now st st' raw p,
      f_date f = Some raw -> strptime_Ymd raw = Some p ->
      add py_float f now st = Ret st' ->
      exists r,
        st' = st ++ [r] /\
        date r = Some (two_digits (day p) ++ "-" ++ two_digits (month p)
                         ++ "-" ++ strftime_Y (year p))%string /\
        month_year r = Some (two_digits (month p) ++ "-" ++ strftime_Y (year p))%string /\
        month_year r = get_month_year (date r) /\
        (1000 <= year p ->
         date r = Some (DD_MM_YYYY p) /\ month_year r = Some (MM_YYYY p)) /\
        (year p < 1000 ->
         date r <> Some (DD_MM_YYYY p) /\ month_year r <> Some (MM_YYYY p))).
  { intros py_float f now st st' raw p Hraw Hp H.
    apply add_inv in H.
    destruct H as [r [q [-> [_ [Hd [Hm [Hq _]]]]]]].
    rewrite (Hq raw p Hraw Hp) in Hd, Hm.
    assert (Hv := strptime_Ymd_valid raw p Hp).
    destruct (strftime_of_valid p Hv) as [E1 E2].
    exists r. split; [reflexivity|].
    split; [rewrite Hd, E1; reflexivity|].
    split; [rewrite Hm, E2; reflexivity|].
    split; [rewrite Hd, Hm; symmetry; apply get_month_year_strftime|].
    split.
    - intro Hy. destruct (strftime_canonical p Hv Hy) as [C1 C2].
      rewrite Hd, Hm, C1, C2. split; reflexivity.
    - intro Hy. assert (Hlen := strftime_Y_short (year p) Hy).
      rewrite Hd, Hm, E1, E2. unfold DD_MM_YYYY, MM_YYYY.
      split; intro Heq; injection Heq as Heq; rewrite Heq in Hlen;
        simpl in Hlen; lia. }
  split; [exact General|]. split; [|split].
  - intros py_float f now st pc H. unfold add. rewrite H. simpl. eauto.
  - intros py_float f now st st' Hraw H.
    destruct (General py_float f now st st' "2024-03-15"
                {| year := 2024; month := 3; day := 15 |} Hraw eq_refl H)
      as [r [Hst [_ [_ [_ [Hc _]]]]]].
    destruct (Hc ltac:(simpl; lia)) as [Hd Hm].
    exists r. split; [exact Hst|]. split; [exact Hd | exact Hm].
  - repeat split; vm_compute; reflexivity.
Qed.

Lemma add_canonical_date_from_year_1000_only_witness :
  exists st' r,
    add no_float (form_with_date "2024-03-15") some_day [] = Ret st' /\
    st' = [] ++ [r] /\
    date r = Some "15-03-2024" /\ month_year r = Some "03-2024".
Proof.
  destruct (add no_float (form_with_date "2024-03-15") some_day []) as [st'|e] eqn:E;
    [|vm_compute in E; discriminate E].
  destruct (proj1 add_canonical_date_from_year_1000_only
              no_float (form_with_date "2024-03-15") some_day [] st' "2024-03-15"
              {| year := 2024; month := 3; day := 15 |} eq_refl eq_refl E)
    as [r [Hst [_ [_ [_ [Hc _]]]]]].
  destruct (Hc ltac:(simpl; lia)) as [Hd Hm].
  exists st', r. split; [reflexivity|]. split; [exact Hst|].
  split; [exact Hd | exact Hm].
Defined.

(** C7. The derivation invariant is kept by every completed create and
    every completed edit, so it holds for every record of every table the
    application builds: the stored pace is [calculate_pace] of the stored
    distance and time, the stored month is the month of the stored date. *)
Theorem derived_fields_invariant :
  forall py_float : string -> option float,
    (forall f now st st',
        Forall derived st -> add py_float f now st = Ret st' ->
        Forall derived st') /\
    (forall f st st',
        Forall derived st -> edit py_float f st = Ret st' ->
        Forall derived st') /\
    (forall st, reachable py_float st -> Forall derived st).
Proof.
  intro py_float. split; [|split].
  - apply add_preserves_derived.
  - apply edit_preserves_derived.
  - induction 1 as [|f now st st' _ IH H|f st st' _ IH H|a st st' _ IH H].
    + constructor.
    + exact (add_preserves_derived py_float f now st st' IH H).
    + exact (edit_preserves_derived py_float f st st' IH H).
    + exact (delete_preserves_derived a st st' IH H).
Qed.

Lemma derived_fields_invariant_witness :
  exists st,
    add no_float (form_with_date "2024-03-15") some_day [] = Ret st /\
    reachable no_float st /\ Forall derived st.
Proof.
  destruct (add no_float (form_with_date "2024-03-15") some_day []) as [st|e] eqn:E;
    [|vm_compute in E; discriminate E].
  exists st. split; [reflexivity|].
  assert (R : reachable no_float st).
  { exact (reach_add no_float _ _ _ _ (reach_empty no_float) E). }
  split; [exact R|].
  exact (proj2 (proj2 (derived_fields_invariant no_float)) st R).
Defined.

(** C8. A completed POST /edit whose date is missing, empty or not a
    [%Y-%m-%d] date leaves the date and the month of the record as they
    were and replaces the activity type, the distance, the time, the pace
    and the calories; the other records are untouched, and the request
    completes whenever the pace computation does. *)
Theorem edit_invalid_date_keeps_date_and_month :
  forall (py_float : string -> option float) (f : form) (st : store)
         (i : Z) (r : Athlete_Data),
    int_of_field (f_id f) = Ret i ->
    get st i = Some r ->
    (str_bool (f_date f) = false \/
     exists raw, f_date f = Some raw /\ strptime_Ymd raw = None) ->
    (forall st',
        edit py_float f st = Ret st' ->
        exists r',
          get st' i = Some r' /\
          (forall j, j <> i -> get st' j = get st j) /\
          id r' = id r /\
          date r' = date r /\
          month_year r' = month_year r /\
          activity_type r' = Some (get_default (f_activity_type f) "Running") /\
          distance r' = Some (float_of_field py_float (f_distance f)) /\
          time r' = Some (get_default (f_time f) "00:00:00") /\
          calculate_pace (distance r') (time r') = Ret (pace r') /\
          calories r' = Some (float_of_field py_float (f_calories f))) /\
    (forall pc,
        calculate_pace (Some (float_of_field py_float (f_distance f)))
                       (Some (get_default (f_time f) "00:00:00")) = Ret pc ->
        exists st', edit py_float f st = Ret st').
Proof.
  intros py_float f st i r Hi Hg Hdate. split.
  - intros st' H. apply edit_inv in H.
    destruct H as [i' [r0 [r' [Hi' [Hg' [-> [Hid [Hdm [Ha [Hd [Ht [Hc Hp]]]]]]]]]]]].
    rewrite Hi in Hi'. injection Hi' as <-.
    rewrite Hg in Hg'. injection Hg' as <-.
    rewrite (edit_date_invalid _ r Hdate) in Hdm. injection Hdm as Hdate' Hmonth'.
    destruct (get_Some_id st i r Hg) as [Hri _].
    assert (Hi' : id r' = i) by congruence.
    exists r'. split.
    { rewrite <- Hi'. apply get_put_same with r. rewrite Hi'. exact Hg. }
    split.
    { intros j Hj. apply get_put_other. congruence. }
    repeat (split; [assumption|]). assumption.
  - intros pc Hpc. unfold edit, get_or_404. rewrite Hi. simpl. rewrite Hg. simpl.
    rewrite Hpc. simpl. eauto.
Qed.

Lemma edit_invalid_date_keeps_date_and_month_witness :
  exists st' r',
    edit float_of_integer_text sample_edit sample_rows = Ret st' /\
    get st' 1 = Some r' /\
    date r' = Some "05-01-2024" /\ month_year r' = Some "01-2024" /\
    activity_type r' = Some "Cycling" /\ pace r' = Some "05:00".
Proof.
  destruct (edit float_of_integer_text sample_edit sample_rows) as [st'|e] eqn:E;
    [|vm_compute in E; discriminate E].
  destruct (proj1 (edit_invalid_date_keeps_date_and_month
                     float_of_integer_text sample_edit sample_rows 1
                     (sample_row 1 "05-01-2024" 5 "01-2024")
                     eq_refl eq_refl
                     (or_intror (ex_intro _ "15/03/2024" (conj eq_refl eq_refl))))
                  st' E)
    as [r' [Hg [_ [_ [Hd [Hm [Ha [Hdist [Ht [Hp _]]]]]]]]]].
  exists st', r'. split; [reflexivity|]. split; [exact Hg|].
  split; [exact Hd|]. split; [exact Hm|]. split; [exact Ha|].
  rewrite Hdist, Ht in Hp.
  assert (Hc : calculate_pace
                 (Some (float_of_field float_of_integer_text (f_distance sample_edit)))
                 (Some (get_default (f_time sample_edit) "00:00:00"))
               = Ret (Some "05:00")) by (vm_compute; reflexivity).
  rewrite Hc in Hp. injection Hp as <-. reflexivity.
Defined.

(* ================================================================== *)
(** * Binary64 arithmetic: digits, shifts, rounding *)
(* ================================================================== *)

Lemma fexp_eq (e : Z) : fexp prec emax e = Z.max (e - 53) (-1074).
Proof. reflexivity. Qed.

Lemma digits2_pos_size (p : positive) : digits2_pos p = Pos.size p.
Proof. induction p; simpl; congruence. Qed.

Lemma Zdigits2_log2 (m : Z) : 0 < m -> Zdigits2 m = Z.log2 m + 1.
Proof.
  destruct m as [|p|p]; try lia. intros _. simpl.
  rewrite digits2_pos_size. destruct p; simpl; lia.
Qed.

Lemma Zdigits2_bounds (m : Z) :
  0 < m -> 2 ^ (Zdigits2 m - 1) <= m < 2 ^ Zdigits2 m.
Proof.
  intro H. rewrite (Zdigits2_log2 m H).
  replace (Z.log2 m + 1 - 1) with (Z.log2 m) by lia.
  replace (Z.log2 m + 1) with (Z.succ (Z.log2 m)) by lia.
  apply Z.log2_spec, H.
Qed.

Lemma Zdigits2_pos (m : Z) : 0 < m -> 0 < Zdigits2 m.
Proof.
  intro H. rewrite (Zdigits2_log2 m H). pose proof (Z.log2_nonneg m). lia.
Qed.

Lemma Zdigits2_le_iff (m d : Z) : 0 < m -> 0 <= d -> (Zdigits2 m <= d <-> m < 2 ^ d).
Proof.
  intros Hm Hd. rewrite (Zdigits2_log2 m Hm). split; intro H.
  - apply Z.log2_lt_pow2; lia.
  - apply Z.log2_lt_pow2 in H; lia.
Qed.

Lemma Zdigits2_mono (a b : Z) : 0 < a -> a <= b -> Zdigits2 a <= Zdigits2 b.
Proof.
  intros Ha Hab. rewrite !Zdigits2_log2 by lia.
  pose proof (Z.log2_le_mono a b Hab). lia.
Qed.

Lemma Zdigits2_div_pow2 (m n : Z) :
  0 <= n -> 0 < m / 2 ^ n -> Zdigits2 (m / 2 ^ n) = Zdigits2 m - n.
Proof.
  intros Hn Hq.
  assert (Hm : 0 < m).
  { destruct (Z.lt_trichotomy m 0) as [H|[H|H]]; try lia.
    - pose proof (Z.pow_pos_nonneg 2 n). 
      assert (m / 2 ^ n < 0) by (apply Z.div_lt_upper_bound; lia). lia.
    - subst. rewrite Z.div_0_l in Hq; lia. }
  rewrite !Zdigits2_log2 by lia.
  rewrite <- Z.shiftr_div_pow2 by lia. rewrite Z.log2_shiftr by lia.
  rewrite <- Z.shiftr_div_pow2 in Hq by lia.
  assert (0 <= Z.log2 m - n).
  { destruct (Z.le_gt_cases n (Z.log2 m)); [lia|].
    rewrite Z.shiftr_eq_0 in Hq; lia. }
  lia.
Qed.

Lemma Zdigits2_mul_pow2 (m n : Z) :
  0 < m -> 0 <= n -> Zdigits2 (m * 2 ^ n) = Zdigits2 m + n.
Proof.
  intros Hm Hn.
  assert (0 < m * 2 ^ n) by (apply Z.mul_pos_pos; [lia | apply Z.pow_pos_nonneg; lia]).
  rewrite !Zdigits2_log2 by lia.
  rewrite Z.log2_mul_pow2 by lia. lia.
Qed.

(** shr_1 on a non-negative mantissa *)
Lemma shr_1_nonneg (m : Z) (r s : bool) :
  0 <= m ->
  shr_1 {| shr_m := m; shr_r := r; shr_s := s |} =
  {| shr_m := m / 2; shr_r := Z.odd m; shr_s := r || s |}.
Proof.
  intro Hm. destruct m as [|p|p]; try lia.
  - reflexivity.
  - destruct p as [p|p|]; simpl shr_1.
    + f_equal. rewrite Pos2Z.inj_xI. 
      replace (2 * Z.pos p + 1) with (1 + Z.pos p * 2) by lia.
      rewrite Z.div_add by lia. reflexivity.
    + f_equal. rewrite Pos2Z.inj_xO. 
      replace (2 * Z.pos p) with (Z.pos p * 2) by lia.
      rewrite Z.div_mul by lia. reflexivity.
    + reflexivity.
Qed.

Lemma iter_pos_nat {A : Type} (f : A -> A) (p : positive) (x : A) :
  iter_pos f p x = Nat.iter (Pos.to_nat p) f x.
Proof.
  revert x. induction p as [p IH|p IH|]; intro x; cbn [iter_pos].
  - rewrite !IH. rewrite Pos2Nat.inj_xI.
    replace (S (2 * Pos.to_nat p)) with (Pos.to_nat p + Pos.to_nat p + 1)%nat by lia.
    rewrite !Nat.iter_add. reflexivity.
  - rewrite !IH. rewrite Pos2Nat.inj_xO.
    replace (2 * Pos.to_nat p)%nat with (Pos.to_nat p + Pos.to_nat p)%nat by lia.
    rewrite Nat.iter_add. reflexivity.
  - reflexivity.
Qed.

Lemma sticky_step (m k : Z) :
  0 < k ->
  negb (m mod (k * 2) =? 0) = Z.odd (m / k) || negb (m mod k =? 0).
Proof.
  intro Hk. rewrite Z.rem_mul_r by lia.
  pose proof (Z.mod_pos_bound m k Hk) as Hb.
  assert (Ho : (m / k) mod 2 = if Z.odd (m / k) then 1 else 0) by apply Zmod_odd.
  destruct (Z.odd (m / k)); rewrite Ho.
  - destruct (m mod k + k * 1 =? 0) eqn:E; [apply Z.eqb_eq in E; lia | reflexivity].
  - rewrite Z.mul_0_r, Z.add_0_r. reflexivity.
Qed.

(** [n] single shifts of a non-negative mantissa. *)
Lemma shr_1_iter (n : nat) (m : Z) (r s : bool) :
  0 <= m ->
  Nat.iter (S n) shr_1 {| shr_m := m; shr_r := r; shr_s := s |} =
  {| shr_m := m / 2 ^ Z.of_nat (S n);
     shr_r := Z.odd (m / 2 ^ Z.of_nat n);
     shr_s := negb (m mod 2 ^ Z.of_nat n =? 0) || (r || s) |}.
Proof.
  intro Hm. induction n as [|n IH].
  - cbn [Nat.iter]. rewrite shr_1_nonneg by exact Hm.
    change (2 ^ Z.of_nat 1) with 2. change (2 ^ Z.of_nat 0) with 1.
    rewrite Z.div_1_r, Z.mod_1_r. reflexivity.
  - change (Nat.iter (S (S n)) shr_1 ?x) with (shr_1 (Nat.iter (S n) shr_1 x)).
    rewrite IH.
    assert (Hp : 0 < 2 ^ Z.of_nat n) by (apply Z.pow_pos_nonneg; lia).
    assert (Hp1 : 2 ^ Z.of_nat (S n) = 2 ^ Z.of_nat n * 2).
    { rewrite Nat2Z.inj_succ, Z.pow_succ_r by lia. lia. }
    assert (Hp2 : 2 ^ Z.of_nat (S (S n)) = 2 ^ Z.of_nat (S n) * 2).
    { rewrite (Nat2Z.inj_succ (S n)), Z.pow_succ_r by lia. lia. }
    rewrite shr_1_nonneg by (apply Z.div_pos; lia).
    f_equal.
    + rewrite Hp2. rewrite Z.div_div by lia. reflexivity.
    + rewrite Hp1, (sticky_step m _ Hp). rewrite orb_assoc. reflexivity.
Qed.

(** The shift of an exact record, as arithmetic. *)
Lemma shr_exact (m e n : Z) :
  0 <= m -> 0 < n ->
  shr {| shr_m := m; shr_r := false; shr_s := false |} e n =
  ({| shr_m := m / 2 ^ n;
      shr_r := Z.odd (m / 2 ^ (n - 1));
      shr_s := negb (m mod 2 ^ (n - 1) =? 0) |}, e + n).
Proof.
  intros Hm Hn. destruct n as [|p|p]; try lia.
  unfold shr. rewrite iter_pos_nat.
  destruct (Pos.to_nat p) as [|k] eqn:Ek; [lia|].
  rewrite shr_1_iter by exact Hm.
  assert (Z.of_nat (S k) = Z.pos p) by lia.
  assert (Z.of_nat k = Z.pos p - 1) by lia.
  rewrite H, H0. rewrite !orb_false_r. reflexivity.
Qed.

Lemma shr_m_nonneg (rc : shr_record) (e n : Z) :
  0 <= shr_m rc -> 0 <= shr_m (fst (shr rc e n)).
Proof.
  intro H. destruct n as [|p|p]; simpl; try exact H.
  rewrite iter_pos_nat. induction (Pos.to_nat p) as [|k IH]; simpl.
  - exact H.
  - destruct (Nat.iter k shr_1 rc) as [m r s]. simpl in IH.
    rewrite shr_1_nonneg by exact IH. simpl. apply Z.div_pos; lia.
Qed.

Lemma binary_round_aux_finish (s : bool) (m e : Z) (l : location) :
  binary_round_aux prec emax s m e l =
  finish s (round_nearest_even (shr_m (fst (shr_fexp prec emax m e l)))
                               (loc_of_shr_record (fst (shr_fexp prec emax m e l))))
           (snd (shr_fexp prec emax m e l)).
Proof.
  unfold binary_round_aux, finish.
  destruct (shr_fexp prec emax m e l) as [mrs' e']. reflexivity.
Qed.

Lemma round_nearest_even_bounds (m : Z) (l : location) :
  m <= round_nearest_even m l <= m + 1.
Proof.
  destruct l as [|[| |]]; simpl; try lia. destruct (Z.even m); lia.
Qed.

Lemma shr_fexp_nonneg (m e : Z) (l : location) :
  0 <= m -> 0 <= shr_m (fst (shr_fexp prec emax m e l)).
Proof.
  intro H. unfold shr_fexp. apply shr_m_nonneg.
  destruct l as [|[| |]]; exact H.
Qed.

Lemma shr_fexp_exact (m e : Z) :
  0 <= m ->
  let e' := Z.max (fexp prec emax (Zdigits2 m + e)) e in
  shr_fexp prec emax m e loc_Exact =
  ({| shr_m := m / 2 ^ (e' - e);
      shr_r := if e <? e' then Z.odd (m / 2 ^ (e' - e - 1)) else false;
      shr_s := if e <? e' then negb (m mod 2 ^ (e' - e - 1) =? 0) else false |}, e').
Proof.
  intros Hm e'. unfold shr_fexp. cbn [shr_record_of_loc].
  destruct (Z.ltb_spec e e') as [Hlt|Hge].
  - assert (He' : e' = fexp prec emax (Zdigits2 m + e)) by (unfold e' in *; lia).
    rewrite <- He'. rewrite shr_exact by lia.
    replace (e + (e' - e)) with e' by lia. reflexivity.
  - assert (He' : e' = e) by (unfold e' in *; lia).
    assert (Hn : fexp prec emax (Zdigits2 m + e) - e <= 0) by (unfold e' in *; lia).
    rewrite He', Z.sub_diag, Z.div_1_r.
    unfold shr. destruct (fexp prec emax (Zdigits2 m + e) - e); try lia; reflexivity.
Qed.

Lemma finish_cases (s : bool) (m1 e1 : Z) :
  0 <= m1 ->
  let e2 := Z.max (fexp prec emax (Zdigits2 m1 + e1)) e1 in
  finish s m1 e1 =
  if m1 / 2 ^ (e2 - e1) =? 0 then S754_zero s
  else if e2 <=? 971 then S754_finite s (Z.to_pos (m1 / 2 ^ (e2 - e1))) e2
       else S754_infinity s.
Proof.
  intros Hm e2. unfold finish. rewrite shr_fexp_exact by exact Hm.
  fold e2. cbn [shr_m].
  assert (Hq : 0 <= m1 / 2 ^ (e2 - e1)) by (apply Z.div_pos; [lia | apply Z.pow_pos_nonneg; unfold e2; lia]).
  destruct (m1 / 2 ^ (e2 - e1)) as [|q|q] eqn:Eq; try lia; reflexivity.
Qed.

Lemma finish_wf (s : bool) (m1 e1 : Z) : 0 <= m1 -> wf (finish s m1 e1).
Proof.
  intro Hm. rewrite finish_cases by exact Hm.
  set (e2 := Z.max (fexp prec emax (Zdigits2 m1 + e1)) e1).
  destruct (Z.eqb_spec (m1 / 2 ^ (e2 - e1)) 0) as [|Hne]; [exact I|].
  destruct (Z.leb_spec e2 971) as [Hle|]; [|exact I].
  assert (Hq : 0 < m1 / 2 ^ (e2 - e1)).
  { assert (0 <= m1 / 2 ^ (e2 - e1)) by (apply Z.div_pos; [lia | apply Z.pow_pos_nonneg; unfold e2; lia]). lia. }
  cbn [wf]. rewrite Z2Pos.id by exact Hq.
  assert (He : 0 <= e2 - e1) by (unfold e2; lia).
  rewrite (Zdigits2_div_pow2 m1 (e2 - e1) He Hq).
  unfold e2 in *. rewrite fexp_eq in *. lia.
Qed.

Lemma finish_sign (s : bool) (m1 e1 : Z) (s' : bool) (m : positive) (e : Z) :
  0 <= m1 -> finish s m1 e1 = S754_finite s' m e -> s' = s.
Proof.
  intros Hm. rewrite finish_cases by exact Hm.
  destruct (_ =? 0); [discriminate|]. destruct (_ <=? 971); [|discriminate].
  intro H. injection H as -> _ _. reflexivity.
Qed.

Lemma finish_not_nan (s : bool) (m1 e1 : Z) :
  0 <= m1 -> finish s m1 e1 <> S754_nan.
Proof.
  intros Hm. rewrite finish_cases by exact Hm.
  destruct (_ =? 0); [discriminate|]. destruct (_ <=? 971); discriminate.
Qed.

Lemma iter_xO (m d : positive) :
  Zpos (Pos.iter xO m d) = Zpos m * 2 ^ Zpos d.
Proof.
  change (Pos.iter xO m d) with (Zpower.shift_pos d m).
  rewrite Zpower.shift_pos_correct, Zpower.Zpower_pos_nat, Zpower.Zpower_nat_Z.
  rewrite positive_nat_Z. lia.
Qed.

Lemma shl_align_spec (mx : positive) (ex ex' : Z) :
  snd (shl_align mx ex ex') = Z.min ex ex' /\
  Zpos (fst (shl_align mx ex ex')) = Zpos mx * 2 ^ (ex - Z.min ex ex').
Proof.
  unfold shl_align. destruct (ex' - ex) as [|d|d] eqn:E; cbn [fst snd].
  - replace (Z.min ex ex') with ex by lia. rewrite Z.sub_diag. lia.
  - replace (Z.min ex ex') with ex by lia. rewrite Z.sub_diag. lia.
  - replace (Z.min ex ex') with ex' by lia. rewrite iter_xO.
    replace (ex - ex') with (Z.pos d) by lia. split; reflexivity.
Qed.

(** Rounding a mantissa whose dropped bits are all zero changes nothing. *)
Lemma binary_round_aux_exact (s : bool) (P E : Z) :
  0 < P ->
  let e1 := Z.max (fexp prec emax (Zdigits2 P + E)) E in
  P mod 2 ^ (e1 - E) = 0 ->
  binary_round_aux prec emax s P E loc_Exact =
  if e1 <=? 971 then S754_finite s (Z.to_pos (P / 2 ^ (e1 - E))) e1
  else S754_infinity s.
Proof.
  intros HP e1 Hmod.
  assert (Hn : 0 <= e1 - E) by (unfold e1; lia).
  assert (Hpow : 0 < 2 ^ (e1 - E)) by (apply Z.pow_pos_nonneg; lia).
  assert (HPq : P = 2 ^ (e1 - E) * (P / 2 ^ (e1 - E))).
  { pose proof (Z.div_mod P (2 ^ (e1 - E))). lia. }
  assert (Hq : 0 < P / 2 ^ (e1 - E)).
  { destruct (Z.lt_trichotomy (P / 2 ^ (e1 - E)) 0) as [H|[H|H]]; [nia | | exact H].
    rewrite H in HPq. lia. }
  rewrite binary_round_aux_finish, shr_fexp_exact by lia.
  fold e1. cbn [fst snd shr_m].
  assert (Hloc : loc_of_shr_record
            {| shr_m := P / 2 ^ (e1 - E);
               shr_r := if E <? e1 then Z.odd (P / 2 ^ (e1 - E - 1)) else false;
               shr_s := if E <? e1 then negb (P mod 2 ^ (e1 - E - 1) =? 0) else false |}
          = loc_Exact).
  { destruct (Z.ltb_spec E e1) as [Hlt|Hge]; [|reflexivity].
    assert (Hp1 : 0 < 2 ^ (e1 - E - 1)) by (apply Z.pow_pos_nonneg; lia).
    assert (Hsplit : 2 ^ (e1 - E) = 2 ^ (e1 - E - 1) * 2).
    { replace (e1 - E) with (Z.succ (e1 - E - 1)) at 1 by lia.
      rewrite Z.pow_succ_r by lia. lia. }
    assert (Hst := sticky_step P (2 ^ (e1 - E - 1)) Hp1).
    rewrite <- Hsplit, Hmod in Hst. simpl in Hst.
    symmetry in Hst. apply orb_false_iff in Hst. destruct Hst as [-> ->].
    reflexivity. }
  rewrite Hloc. cbn [round_nearest_even].
  rewrite finish_cases by lia.
  assert (He2 : Z.max (fexp prec emax (Zdigits2 (P / 2 ^ (e1 - E)) + e1)) e1 = e1).
  { rewrite (Zdigits2_div_pow2 P (e1 - E) Hn Hq).
    replace (Zdigits2 P - (e1 - E) + e1) with (Zdigits2 P + E) by lia.
    unfold e1. lia. }
  rewrite He2, Z.sub_diag, Z.div_1_r.
  destruct (Z.eqb_spec (P / 2 ^ (e1 - E)) 0); [lia | reflexivity].
Qed.

(** [binary_round] on a number that needs no rounding. *)
Lemma binary_round_exact (s : bool) (P0 : positive) (E0 : Z) :
  let t := fexp prec emax (Zdigits2 (Zpos P0) + E0) in
  (t <= E0 \/ Zpos P0 mod 2 ^ (t - E0) = 0) ->
  t <= 971 ->
  binary_round prec emax s P0 E0 =
  S754_finite s (Z.to_pos (if t <=? E0 then Zpos P0 * 2 ^ (E0 - t)
                           else Zpos P0 / 2 ^ (t - E0))) t.
Proof.
  intros t Hex Ht. unfold binary_round.
  destruct (shl_align_spec P0 E0 (fexp prec emax (Zpos (digits2_pos P0) + E0))) as [Hs Hf].
  destruct (shl_align P0 E0 _) as [mz ez]. cbn [fst snd] in Hs, Hf.
  change (Zpos (digits2_pos P0)) with (Zdigits2 (Zpos P0)) in Hs, Hf.
  fold t in Hs, Hf.
  destruct (Z.leb_spec t E0) as [Hle|Hgt].
  - (* shifted left to exponent t *)
    assert (Hez : ez = t) by lia. clear Hs. subst ez.
    replace (Z.min E0 t) with t in Hf by lia.
    assert (Hd : Zdigits2 (Zpos mz) + t = Zdigits2 (Zpos P0) + E0).
    { rewrite Hf, Zdigits2_mul_pow2 by lia. lia. }
    rewrite binary_round_aux_exact.
    + rewrite Hd. fold t. replace (Z.max t t) with t by lia.
      rewrite Z.sub_diag, Z.div_1_r.
      destruct (Z.leb_spec t 971); [|lia]. rewrite Hf. reflexivity.
    + lia.
    + rewrite Hd. fold t. replace (Z.max t t) with t by lia.
      rewrite Z.sub_diag. apply Z.mod_1_r.
  - (* rounded at exponent t, the dropped bits being zero *)
    assert (Hez : ez = E0) by lia. clear Hs. subst ez.
    replace (Z.min E0 t) with E0 in Hf by lia.
    rewrite Z.sub_diag, Z.mul_1_r in Hf. injection Hf as ->.
    destruct Hex as [Hex|Hex]; [lia|].
    rewrite binary_round_aux_exact.
    + fold t. replace (Z.max t E0) with t by lia.
      destruct (Z.leb_spec t 971); [reflexivity | lia].
    + lia.
    + fold t. replace (Z.max t E0) with t by lia. exact Hex.
Qed.

Lemma pow2_pos (n : Z) : 0 <= n -> 0 < 2 ^ n.
Proof. intro H. apply Z.pow_pos_nonneg; lia. Qed.

Lemma pow2_split (a b : Z) : 0 <= a -> 0 <= b -> 2 ^ (a + b) = 2 ^ a * 2 ^ b.
Proof. intros. apply Z.pow_add_r; assumption. Qed.

Lemma Z2F_cond_Zopp (s : bool) (p : positive) :
  Z2F (cond_Zopp s (Zpos p)) = binary_round prec emax s p 0.
Proof. destruct s; reflexivity. Qed.

(** The float of an integer with at most 53 significant bits is exact. *)
Lemma Z2F_of_scaled (s : bool) (m : positive) (e : Z) :
  Zdigits2 (Zpos m) <= 53 -> 0 <= e <= 971 ->
  let t := fexp prec emax (Zdigits2 (Zpos m) + e) in
  t <= e /\
  Z2F (cond_Zopp s (Zpos m * 2 ^ e)) =
  S754_finite s (Z.to_pos (Zpos m * 2 ^ (e - t))) t.
Proof.
  intros Hd He t.
  assert (Hdp := Zdigits2_pos (Zpos m) eq_refl).
  assert (Ht : t <= e) by (unfold t; rewrite fexp_eq; lia).
  split; [exact Ht|].
  assert (HP : 0 < Zpos m * 2 ^ e) by (apply Z.mul_pos_pos; [lia | apply pow2_pos; lia]).
  destruct (Zpos m * 2 ^ e) as [|P0|P0] eqn:EP; try lia.
  rewrite Z2F_cond_Zopp.
  assert (Hdig : Zdigits2 (Zpos P0) + 0 = Zdigits2 (Zpos m) + e).
  { rewrite <- EP, Zdigits2_mul_pow2 by lia. lia. }
  assert (Hmant : (if t <=? 0 then Zpos P0 * 2 ^ (0 - t) else Zpos P0 / 2 ^ (t - 0))
                  = Zpos m * 2 ^ (e - t)).
  { rewrite <- EP. destruct (Z.leb_spec t 0) as [Hle|Hgt].
    - rewrite <- Z.mul_assoc, <- pow2_split by lia.
      replace (e + (0 - t)) with (e - t) by lia. reflexivity.
    - replace e with ((e - t) + t) at 1 by lia.
      rewrite pow2_split by lia. rewrite Z.sub_0_r, Z.mul_assoc.
      apply Z.div_mul. pose proof (pow2_pos t). lia. }
  rewrite binary_round_exact; rewrite Hdig; fold t.
  - rewrite Hmant. reflexivity.
  - destruct (Z.leb_spec t 0) as [Hle|Hgt]; [left; exact Hle | right].
    rewrite <- EP. replace e with ((e - t) + t) at 1 by lia.
    rewrite pow2_split by lia. rewrite Z.sub_0_r, Z.mul_assoc.
    apply Z.mod_mul. pose proof (pow2_pos t). lia.
  - lia.
Qed.

Lemma cond_Zopp_sub (s : bool) (a b : Z) :
  cond_Zopp s a - cond_Zopp s b = cond_Zopp s (a - b).
Proof. destruct s; simpl; lia. Qed.

Lemma binary_normalize_cond_Zopp (s : bool) (D : positive) (e : Z) :
  binary_normalize prec emax (cond_Zopp s (Zpos D)) e false =
  binary_round prec emax s D e.
Proof. destruct s; reflexivity. Qed.

Lemma fsub_same_sign (s : bool) (mx my : positive) (ex ey : Z) :
  fsub (S754_finite s mx ex) (S754_finite s my ey) =
  binary_normalize prec emax
    (cond_Zopp s (Zpos mx * 2 ^ (ex - Z.min ex ey) - Zpos my * 2 ^ (ey - Z.min ex ey)))
    (Z.min ex ey) false.
Proof.
  unfold fsub, SFsub. rewrite cond_Zopp_sub.
  destruct (shl_align_spec mx ex (Z.min ex ey)) as [_ H1].
  destruct (shl_align_spec my ey (Z.min ex ey)) as [_ H2].
  rewrite H1, H2.
  replace (Z.min ex (Z.min ex ey)) with (Z.min ex ey) by lia.
  replace (Z.min ey (Z.min ex ey)) with (Z.min ex ey) by lia.
  reflexivity.
Qed.

(** The fractional part [x - int(x)] of a finite float: zero, or a float of
    the same sign, below one in magnitude, computed without rounding. *)
Lemma frac_cases (s : bool) (m : positive) (e : Z) :
  Zdigits2 (Zpos m) <= 53 -> -1074 <= e <= 971 ->
  let M := cond_Zopp s (Z.shiftl (Zpos m) e) in
  is_inf (Z2F M) = false /\
  (fsub (S754_finite s m e) (Z2F M) = S754_zero false \/
   exists mf ef,
     fsub (S754_finite s m e) (Z2F M) = S754_finite s mf ef /\
     Zdigits2 (Zpos mf) <= 53 /\ -1074 <= ef < 0 /\ Zpos mf < 2 ^ (- ef)).
Proof.
  intros Hd He M.
  assert (Hdp := Zdigits2_pos (Zpos m) eq_refl).
  destruct (Z.le_gt_cases 0 e) as [Hpos|Hneg].
  - (* an integer: the difference is zero *)
    unfold M. rewrite Z.shiftl_mul_pow2 by lia.
    destruct (Z2F_of_scaled s m e Hd (conj Hpos (proj2 He))) as [Ht ->].
    set (t := fexp prec emax (Zdigits2 (Zpos m) + e)) in *.
    split; [reflexivity|]. left.
    assert (HP : 0 < Zpos m * 2 ^ (e - t)) by (apply Z.mul_pos_pos; [lia | apply pow2_pos; lia]).
    rewrite fsub_same_sign. replace (Z.min e t) with t by lia.
    rewrite Z2Pos.id by exact HP. rewrite Z.sub_diag, Z.mul_1_r, Z.sub_diag.
    destruct s; reflexivity.
  - (* a fraction to drop *)
    unfold M. rewrite Z.shiftl_div_pow2 by lia.
    assert (Hpe : 0 < 2 ^ (- e)) by (apply pow2_pos; lia).
    assert (Hq0 : 0 <= Zpos m / 2 ^ (- e)) by (apply Z.div_pos; lia).
    destruct (Zpos m / 2 ^ (- e)) as [|P0|P0] eqn:EP; try lia.
    + (* below one already *)
      split; [destruct s; reflexivity|]. right. exists m, e.
      split; [destruct s; reflexivity|].
      split; [exact Hd|]. split; [lia|].
      apply Z.div_small_iff in EP; lia.
    + assert (HdP : Zdigits2 (Zpos P0) = Zdigits2 (Zpos m) + e).
      { rewrite <- EP, Zdigits2_div_pow2 by lia. lia. }
      assert (HdP53 : Zdigits2 (Zpos P0) <= 53) by lia.
      assert (HdPp := Zdigits2_pos (Zpos P0) eq_refl).
      destruct (Z2F_of_scaled s P0 0 HdP53 ltac:(lia)) as [Ht HZ].
      rewrite Z.mul_1_r in HZ. rewrite HZ. clear HZ.
      set (t := fexp prec emax (Zdigits2 (Zpos P0) + 0)) in *.
      assert (Htv : t = Zdigits2 (Zpos m) + e - 53).
      { unfold t. rewrite fexp_eq. lia. }
      split; [reflexivity|].
      assert (HP : 0 < Zpos P0 * 2 ^ (0 - t)) by (apply Z.mul_pos_pos; [lia | apply pow2_pos; lia]).
      rewrite fsub_same_sign. replace (Z.min e t) with t by lia.
      rewrite Z2Pos.id by exact HP. rewrite Z.sub_diag, Z.mul_1_r.
      (* the difference, at exponent t *)
      set (R := Zpos m mod 2 ^ (- e)).
      assert (HR : 0 <= R < 2 ^ (- e)) by (apply Z.mod_pos_bound; lia).
      assert (HD : Zpos m * 2 ^ (e - t) - Zpos P0 * 2 ^ (0 - t) = R * 2 ^ (e - t)).
      { replace (0 - t) with ((- e) + (e - t)) by lia.
        rewrite pow2_split by lia.
        pose proof (Z.div_mod (Zpos m) (2 ^ (- e)) ltac:(lia)) as Hdm.
        rewrite EP in Hdm. fold R in Hdm. nia. }
      rewrite HD.
      assert (Hpet : 0 < 2 ^ (e - t)) by (apply pow2_pos; lia).
      destruct (Z.eq_dec R 0) as [HR0|HR0].
      { left. rewrite HR0. destruct s; reflexivity. }
      right.
      assert (HDpos : 0 < R * 2 ^ (e - t)) by (apply Z.mul_pos_pos; lia).
      destruct (R * 2 ^ (e - t)) as [|D|D] eqn:ED; try lia.
      rewrite binary_normalize_cond_Zopp.
      assert (HDlt : Zpos D < 2 ^ (- t)).
      { rewrite <- ED. replace (- t) with ((- e) + (e - t)) by lia.
        rewrite pow2_split by lia. nia. }
      assert (HdD : Zdigits2 (Zpos D) <= - t).
      { apply Zdigits2_le_iff; lia. }
      assert (HdDp := Zdigits2_pos (Zpos D) eq_refl).
      set (u := fexp prec emax (Zdigits2 (Zpos D) + t)).
      assert (Hu : u = Z.max (Zdigits2 (Zpos D) + t - 53) (-1074)) by reflexivity.
      assert (Hut : u <= t) by lia.
      rewrite binary_round_exact; fold u; [|left; exact Hut|lia].
      destruct (Z.leb_spec u t) as [_|]; [|lia].
      assert (Hmf : 0 < Zpos D * 2 ^ (t - u)) by (apply Z.mul_pos_pos; [lia | apply pow2_pos; lia]).
      eexists. exists u. split; [reflexivity|].
      rewrite Z2Pos.id by exact Hmf.
      split; [rewrite Zdigits2_mul_pow2 by lia; lia|].
      split; [lia|].
      replace (- u) with ((- t) + (t - u)) by lia.
      rewrite pow2_split by lia.
      apply Z.mul_lt_mono_pos_r; [apply pow2_pos; lia | exact HDlt].
Qed.

Lemma Zdigits2_mul_le (a b : Z) :
  0 < a -> 0 < b -> Zdigits2 (a * b) <= Zdigits2 a + Zdigits2 b.
Proof.
  intros Ha Hb.
  pose proof (Zdigits2_bounds a Ha) as [_ Ha2].
  pose proof (Zdigits2_bounds b Hb) as [_ Hb2].
  pose proof (Zdigits2_pos a Ha). pose proof (Zdigits2_pos b Hb).
  apply Zdigits2_le_iff; [nia | lia |].
  rewrite pow2_split by lia. nia.
Qed.

Lemma round_up_needs_round_bit (m : Z) (r st : bool) :
  round_nearest_even m
    (loc_of_shr_record {| shr_m := m; shr_r := r; shr_s := st |}) = m \/
  (r = true /\
   round_nearest_even m
     (loc_of_shr_record {| shr_m := m; shr_r := r; shr_s := st |}) = m + 1).
Proof.
  destruct r, st; simpl; auto. destruct (Z.even m); auto.
Qed.

Lemma Z2F_60 : Z2F 60 = S754_finite false 8444249301319680 (-47).
Proof. reflexivity. Qed.

(** Sixty times a fraction below one stays below sixty after rounding. *)
Lemma mul_sixty_bound (s : bool) (mf : positive) (ef : Z) :
  Zdigits2 (Zpos mf) <= 53 -> -1074 <= ef < 0 -> Zpos mf < 2 ^ (- ef) ->
  fmul (S754_finite s mf ef) (Z2F 60) = S754_zero s \/
  exists m2 e2,
    fmul (S754_finite s mf ef) (Z2F 60) = S754_finite s m2 e2 /\
    e2 < 0 /\ Zpos m2 / 2 ^ (- e2) <= 59.
Proof.
  intros Hd He Hlt.
  rewrite Z2F_60. unfold fmul, SFmul. rewrite xorb_false_r.
  rewrite Pos2Z.inj_mul. fold m60.
  set (P := Zpos mf * m60). set (E := ef + -47).
  assert (HP : 0 < P) by (unfold P, m60; lia).
  assert (Hdp := Zdigits2_pos (Zpos mf) eq_refl).
  assert (HdP : Zdigits2 P <= Zdigits2 (Zpos mf) + 53).
  { unfold P. pose proof (Zdigits2_mul_le (Zpos mf) m60 eq_refl eq_refl) as H.
    change (Zdigits2 m60) with 53 in H. exact H. }
  assert (Hdmf : Zdigits2 (Zpos mf) <= - ef) by (apply Zdigits2_le_iff; lia).
  rewrite binary_round_aux_finish, shr_fexp_exact by lia.
  set (e1 := Z.max (fexp prec emax (Zdigits2 P + E)) E).
  cbn [fst snd shr_m].
  assert (He1 : e1 = Z.max (Z.max (Zdigits2 P + E - 53) (-1074)) E) by reflexivity.
  set (n := e1 - E).
  assert (Hn : 0 <= n <= 53) by (unfold n, E in *; lia).
  assert (He1neg : e1 <= -47) by (unfold E in *; lia).
  (* the grid point sixty, at exponent e1 *)
  set (G := 60 * 2 ^ (- e1)).
  assert (Hpn : 0 < 2 ^ n) by (apply pow2_pos; lia).
  assert (HGn : G * 2 ^ n = m60 * 2 ^ (- ef)).
  { unfold G. rewrite <- Z.mul_assoc, <- pow2_split by lia.
    replace (- e1 + n) with (47 + (- ef)) by (unfold n, E; lia).
    rewrite pow2_split by lia. unfold m60. lia. }
  assert (HPle : P <= G * 2 ^ n - m60).
  { rewrite HGn. unfold P. unfold m60 in *. nia. }
  set (m1 := P / 2 ^ n).
  assert (Hm1 : m1 * 2 ^ n <= P < (m1 + 1) * 2 ^ n).
  { unfold m1. pose proof (Z.div_mod P (2 ^ n) ltac:(lia)).
    pose proof (Z.mod_pos_bound P (2 ^ n) Hpn). nia. }
  assert (Hm1G : m1 < G) by (unfold m60 in *; nia).
  assert (Hm10 : 0 <= m1) by (apply Z.div_pos; lia).
  (* the rounded mantissa stays below the grid point *)
  set (r := if E <? e1 then Z.odd (P / 2 ^ (n - 1)) else false).
  set (st := if E <? e1 then negb (P mod 2 ^ (n - 1) =? 0) else false).
  set (m1' := round_nearest_even m1 (loc_of_shr_record {| shr_m := m1; shr_r := r; shr_s := st |})).
  assert (Hm1' : 0 <= m1' < G).
  { destruct (round_up_needs_round_bit m1 r st) as [Heq|[Hr Heq]];
      fold m1' in Heq; rewrite Heq; [lia|].
    split; [lia|].
    unfold r in Hr. destruct (Z.ltb_spec E e1) as [HEe|]; [|discriminate].
    assert (Hh : 0 < 2 ^ (n - 1)) by (apply pow2_pos; lia).
    assert (Hsplit : 2 ^ n = 2 ^ (n - 1) * 2).
    { replace n with (Z.succ (n - 1)) at 1 by lia. rewrite Z.pow_succ_r by lia. lia. }
    assert (Hhalf : P / 2 ^ (n - 1) = 2 * m1 + 1).
    { assert (Hdd : m1 = P / 2 ^ (n - 1) / 2).
      { unfold m1. rewrite Hsplit, Z.div_div by lia. reflexivity. }
      pose proof (Zmod_odd (P / 2 ^ (n - 1))) as Ho. rewrite Hr in Ho.
      pose proof (Z.div_mod (P / 2 ^ (n - 1)) 2 ltac:(lia)). lia. }
    assert (HPge : (2 * m1 + 1) * 2 ^ (n - 1) <= P).
    { pose proof (Z.div_mod P (2 ^ (n - 1)) ltac:(lia)).
      pose proof (Z.mod_pos_bound P (2 ^ (n - 1)) Hh). nia. }
    assert (Hh52 : 2 ^ (n - 1) <= 2 ^ 52) by (apply Z.pow_le_mono_r; lia).
    change (2 ^ 52) with 4503599627370496 in Hh52.
    unfold m60 in *. nia. }
  (* the final float *)
  rewrite (finish_cases s m1' e1 (proj1 Hm1')).
  set (e2 := Z.max (fexp prec emax (Zdigits2 m1' + e1)) e1).
  destruct (Z.eqb_spec (m1' / 2 ^ (e2 - e1)) 0) as [|Hne]; [left; reflexivity|].
  right.
  assert (Hm1'pos : 0 < m1').
  { destruct (Z.eq_dec m1' 0) as [H0|]; [|lia].
    rewrite H0, Z.div_0_l in Hne; [lia|]. pose proof (pow2_pos (e2 - e1)). unfold e2 in *. lia. }
  assert (HG6 : G < 2 ^ (6 - e1)).
  { unfold G. replace (6 - e1) with (6 + (- e1)) by lia. rewrite pow2_split by lia.
    pose proof (pow2_pos (- e1)). change (2 ^ 6) with 64. lia. }
  assert (Hdm1' : Zdigits2 m1' <= 6 - e1) by (apply Zdigits2_le_iff; lia).
  assert (He2 : e1 <= e2 < 0) by (unfold e2; rewrite fexp_eq; lia).
  destruct (Z.leb_spec e2 971) as [_|]; [|lia].
  eexists. exists e2. split; [reflexivity|]. split; [lia|].
  assert (Hq2 : 0 < m1' / 2 ^ (e2 - e1)).
  { assert (0 <= m1' / 2 ^ (e2 - e1)) by (apply Z.div_pos; [lia | apply pow2_pos; lia]). lia. }
  rewrite Z2Pos.id by exact Hq2.
  rewrite Z.div_div by (try apply pow2_pos; lia).
  rewrite <- pow2_split by lia.
  replace (e2 - e1 + - e2) with (- e1) by lia.
  assert (m1' / 2 ^ (- e1) < 60); [|lia].
  apply Z.div_lt_upper_bound; [apply pow2_pos; lia|]. unfold G in Hm1'. lia.
Qed.

(* ================================================================== *)
(** * Binary64 arithmetic: signs and ranges of the results *)
(* ================================================================== *)

Lemma binary_round_aux_wf (s : bool) (m e : Z) (l : location) :
  0 <= m -> wf (binary_round_aux prec emax s m e l).
Proof.
  intro Hm. rewrite binary_round_aux_finish. apply finish_wf.
  pose proof (shr_fexp_nonneg m e l Hm).
  pose proof (round_nearest_even_bounds (shr_m (fst (shr_fexp prec emax m e l)))
                (loc_of_shr_record (fst (shr_fexp prec emax m e l)))). lia.
Qed.

Lemma finish_fsign (s : bool) (m1 e1 : Z) : 0 <= m1 -> fsign (finish s m1 e1) = s.
Proof.
  intro Hm. rewrite finish_cases by exact Hm.
  destruct (_ =? 0); [reflexivity|]. destruct (_ <=? 971); reflexivity.
Qed.

Lemma binary_round_aux_fsign (s : bool) (m e : Z) (l : location) :
  0 <= m -> fsign (binary_round_aux prec emax s m e l) = s.
Proof.
  intro Hm. rewrite binary_round_aux_finish. apply finish_fsign.
  pose proof (shr_fexp_nonneg m e l Hm).
  pose proof (round_nearest_even_bounds (shr_m (fst (shr_fexp prec emax m e l)))
                (loc_of_shr_record (fst (shr_fexp prec emax m e l)))). lia.
Qed.

Lemma binary_round_aux_not_nan (s : bool) (m e : Z) (l : location) :
  0 <= m -> is_nan (binary_round_aux prec emax s m e l) = false.
Proof.
  intro Hm. rewrite binary_round_aux_finish.
  rewrite finish_cases.
  - destruct (_ =? 0); [reflexivity|]. destruct (_ <=? 971); reflexivity.
  - pose proof (shr_fexp_nonneg m e l Hm).
    pose proof (round_nearest_even_bounds (shr_m (fst (shr_fexp prec emax m e l)))
                  (loc_of_shr_record (fst (shr_fexp prec emax m e l)))). lia.
Qed.

Lemma binary_round_fsign (s : bool) (m : positive) (e : Z) :
  fsign (binary_round prec emax s m e) = s /\
  is_nan (binary_round prec emax s m e) = false.
Proof.
  unfold binary_round. destruct (shl_align m e _) as [mz ez].
  split; [apply binary_round_aux_fsign | apply binary_round_aux_not_nan]; lia.
Qed.

Lemma div_core_nonneg (m1 e1 m2 e2 : Z) :
  0 <= m1 -> 0 < m2 ->
  0 <= fst (fst (SFdiv_core_binary prec emax m1 e1 m2 e2)).
Proof.
  intros H1 H2. unfold SFdiv_core_binary.
  set (m' := match _ - _ - _ with Z0 => m1 | Zpos _ => _ | Zneg _ => 0 end).
  assert (Hm' : 0 <= m').
  { unfold m'. destruct (_ - _ - _); try lia. apply Z.shiftl_nonneg. exact H1. }
  pose proof (Z.div_pos m' m2 Hm' H2) as Hq. unfold Z.div in Hq.
  destruct (Z.div_eucl m' m2) as [q r]. exact Hq.
Qed.

Lemma fdiv_wf (x y : float) : wf (fdiv x y).
Proof.
  destruct x as [sx|sx| |sx mx ex], y as [sy|sy| |sy my ey]; try exact I.
  unfold fdiv, SFdiv.
  pose proof (div_core_nonneg (Zpos mx) ex (Zpos my) ey ltac:(lia) ltac:(lia)) as Hq.
  destruct (SFdiv_core_binary prec emax (Zpos mx) ex (Zpos my) ey) as [[q e] l].
  apply binary_round_aux_wf. exact Hq.
Qed.

Lemma fdiv_fsign (x y : float) :
  fsign x = false -> fsign y = false -> fsign (fdiv x y) = false.
Proof.
  destruct x as [sx|sx| |sx mx ex], y as [sy|sy| |sy my ey]; simpl;
    intros Hx Hy; subst; try reflexivity.
  pose proof (div_core_nonneg (Zpos mx) ex (Zpos my) ey ltac:(lia) ltac:(lia)) as Hq.
  destruct (SFdiv_core_binary prec emax (Zpos mx) ex (Zpos my) ey) as [[q e] l].
  apply binary_round_aux_fsign. exact Hq.
Qed.

Lemma fdiv_finite_inv (x y : float) :
  is_finite (fdiv x y) = true -> is_finite x = true.
Proof.
  destruct x as [sx|sx| |sx mx ex], y as [sy|sy| |sy my ey]; simpl;
    intro H; try reflexivity; try discriminate.
Qed.

Lemma fadd_finite_inv (x y : float) :
  is_finite (fadd x y) = true -> is_inf x = false /\ is_inf y = false.
Proof.
  destruct x as [sx|sx| |sx mx ex], y as [sy|sy| |sy my ey]; simpl;
    intro H; try (split; reflexivity); try discriminate;
    destruct sx, sy; discriminate.
Qed.

Lemma Z2F_fsign (z : Z) : 0 <= z -> fsign (Z2F z) = false /\ is_nan (Z2F z) = false.
Proof.
  intro Hz. destruct z as [|p|p]; try lia.
  - split; reflexivity.
  - apply (binary_round_fsign false p 0).
Qed.

Lemma int_quotient_fsign (a : Z) :
  0 <= a -> fsign (int_quotient a 60) = false /\ is_nan (int_quotient a 60) = false.
Proof.
  intro Ha. unfold int_quotient.
  destruct (Z.eqb_spec a 0); [split; reflexivity|].
  pose proof (div_core_nonneg (Z.abs a) 0 (Z.abs 60) 0 ltac:(lia) ltac:(lia)) as Hq.
  destruct (SFdiv_core_binary prec emax (Z.abs a) 0 (Z.abs 60) 0) as [[q e] l].
  replace (a <? 0) with false by (symmetry; apply Z.ltb_ge; lia).
  split; [apply binary_round_aux_fsign | apply binary_round_aux_not_nan]; exact Hq.
Qed.

Lemma fadd_fsign (x y : float) :
  fsign x = false -> fsign y = false -> fsign (fadd x y) = false.
Proof.
  destruct x as [sx|sx| |sx mx ex], y as [sy|sy| |sy my ey]; simpl;
    intros Hx Hy; subst; try reflexivity.
  destruct (shl_align_spec mx ex (Z.min ex ey)) as [_ H1].
  destruct (shl_align_spec my ey (Z.min ex ey)) as [_ H2].
  set (a := fst (shl_align mx ex (Z.min ex ey))) in *.
  set (b := fst (shl_align my ey (Z.min ex ey))) in *.
  change (Zpos a + Zpos b) with (Zpos (a + b)).
  apply (binary_round_fsign false (a + b) (Z.min ex ey)).
Qed.

Lemma int_of_float_finite (x : float) :
  is_finite x = true -> int_of_float x = Ret (trunc x).
Proof. destruct x; simpl; intro H; try discriminate; reflexivity. Qed.

Lemma float_of_int_finite (z : Z) :
  is_inf (Z2F z) = false -> float_of_int z = Ret (Z2F z).
Proof. unfold float_of_int. intros ->. reflexivity. Qed.

(** After the quotient: both truncations go through, and the seconds are
    below sixty in magnitude. *)
Lemma pace_tail (pm : float) :
  is_finite pm = true -> wf pm ->
  is_inf (Z2F (trunc pm)) = false /\
  is_finite (fmul (fsub pm (Z2F (trunc pm))) (Z2F 60)) = true /\
  Z.abs (trunc (fmul (fsub pm (Z2F (trunc pm))) (Z2F 60))) <= 59 /\
  (fsign pm = false ->
   0 <= trunc pm /\ 0 <= trunc (fmul (fsub pm (Z2F (trunc pm))) (Z2F 60))).
Proof.
  intros Hfin Hwf. destruct pm as [s0|s0| |s m e]; try discriminate.
  - destruct s0; vm_compute; repeat split; intros; congruence.
  - cbn [wf] in Hwf. destruct Hwf as [Hd He].
    cbn [trunc fsign].
    destruct (frac_cases s m e Hd He) as [Hinf Hfrac].
    split; [exact Hinf|].
    assert (Hnn : s = false -> 0 <= cond_Zopp s (Z.shiftl (Zpos m) e)).
    { intros ->. simpl. apply Z.shiftl_nonneg. lia. }
    destruct Hfrac as [->|[mf [ef [-> [Hdf [Hef Hlt]]]]]].
    + rewrite Z2F_60. cbn. repeat split; try lia. auto.
    + destruct (mul_sixty_bound s mf ef Hdf Hef Hlt) as [->|[m2 [e2 [-> [He2 Hq]]]]].
      * cbn. repeat split; try lia. auto.
      * cbn [is_finite trunc].
        rewrite Z.shiftl_div_pow2 by lia.
        assert (0 <= Zpos m2 / 2 ^ (- e2)) by (apply Z.div_pos; [lia | apply pow2_pos; lia]).
        split; [reflexivity|]. split; [destruct s; simpl; lia|].
        intro Hs. split; [auto|]. subst s. simpl. lia.
Qed.

Lemma pace_of_total_finite (total d : float) :
  is_zero d = false ->
  is_finite (fdiv total d) = true ->
  pace_of_total total d = Ret (Some (pace_text (fdiv total d))).
Proof.
  intros Hd Hfin. unfold pace_of_total, float_truediv. rewrite Hd. cbn [bind].
  destruct (pace_tail (fdiv total d) Hfin (fdiv_wf total d)) as [H1 [H2 _]].
  rewrite (int_of_float_finite _ Hfin). cbn [bind].
  rewrite (float_of_int_finite _ H1). cbn [bind].
  change (float_of_int 60) with (Ret (Z2F 60)). cbn [bind].
  rewrite (int_of_float_finite _ H2). cbn [bind].
  reflexivity.
Qed.

Lemma float_gt0_inv (d : float) :
  float_gt0 d = true ->
  is_zero d = false /\ float_le0 d = false /\ fsign d = false /\ is_nan d = false.
Proof.
  destruct d as [s|s| |s m e]; simpl; try discriminate.
  - destruct s; [discriminate|]. intros _. repeat split; reflexivity.
  - destruct s; [discriminate|]. intros _. repeat split; reflexivity.
Qed.

Lemma total_minutes_finite (i s : Z) :
  is_finite (fadd (Z2F i) (int_quotient s 60)) = true ->
  (q <- int_truediv s 60 ;; int_add_float i q) = Ret (fadd (Z2F i) (int_quotient s 60)).
Proof.
  intro H. apply fadd_finite_inv in H. destruct H as [Hi Hq].
  unfold int_truediv, int_add_float. cbn [Z.eqb]. rewrite Hq. cbn [bind].
  rewrite (float_of_int_finite _ Hi). reflexivity.
Qed.

Lemma split_two_nonempty (sep : ascii) (t : string) (a b : string) (l : list string) :
  split sep t = a :: b :: l -> str_bool (Some t) = true.
Proof.
  destruct t; simpl; [discriminate | reflexivity].
Qed.

(** The body of [calculate_pace] once the guard is passed. *)
Lemma calculate_pace_guard_passed (d : float) (t : string) :
  float_gt0 d = true -> str_bool (Some t) = true ->
  calculate_pace (Some d) (Some t) =
  try_except
    (match split colon t with
     | [a; b; c] =>
         hours <- or_ValueError (py_int a) ;;
         minutes <- or_ValueError (py_int b) ;;
         seconds <- or_ValueError (py_int c) ;;
         total <- total_minutes_hms hours minutes seconds ;;
         pace_of_total total d
     | [a; b] =>
         minutes <- or_ValueError (py_int a) ;;
         seconds <- or_ValueError (py_int b) ;;
         total <- total_minutes_ms minutes seconds ;;
         pace_of_total total d
     | _ => Ret None
     end)
    handled_in_calculate_pace None.
Proof.
  intros Hd Ht. apply float_gt0_inv in Hd. destruct Hd as [Hz [Hle _]].
  unfold calculate_pace. unfold float_bool. rewrite Hz, Hle, Ht. reflexivity.
Qed.

(* ================================================================== *)
(** * Texts of numbers *)
(* ================================================================== *)

Lemma digit_char_ok (k : Z) :
  0 <= k <= 9 -> is_digit (digit_char k) = true /\ digit_val (digit_char k) = k.
Proof.
  intro Hk.
  assert (H : (is_digit (digit_char k) && (digit_val (digit_char k) =? k)) = true).
  { apply (below_by_cases
             (fun k => is_digit (digit_char k) && (digit_val (digit_char k) =? k)) 10);
      [vm_compute; reflexivity | lia]. }
  apply andb_true_iff in H. destruct H as [H1 H2]. apply Z.eqb_eq in H2. auto.
Qed.

Lemma format_02d_two_digits (n : Z) : 0 <= n <= 99 -> format_02d n = two_digits n.
Proof.
  intro Hn. apply String.eqb_eq.
  apply (below_by_cases (fun n => String.eqb (format_02d n) (two_digits n)) 100);
    [vm_compute; reflexivity | lia].
Qed.

Lemma is_MM_SS_two_digits (M SS : Z) :
  0 <= M <= 99 -> 0 <= SS <= 59 ->
  is_MM_SS (two_digits M ++ ":" ++ two_digits SS) = true.
Proof.
  intros HM HS. unfold is_MM_SS, two_digits. cbn [append list_ascii_of_string].
  destruct (digit_char_ok (M / 10)) as [H1 _]; [Z.div_mod_to_equations; lia|].
  destruct (digit_char_ok (M mod 10)) as [H2 _]; [Z.div_mod_to_equations; lia|].
  destruct (digit_char_ok (SS / 10)) as [H3 H3v]; [Z.div_mod_to_equations; lia|].
  destruct (digit_char_ok (SS mod 10)) as [H4 H4v]; [Z.div_mod_to_equations; lia|].
  rewrite H1, H2, H3, H4, H3v, H4v. cbn [andb].
  change (Ascii.eqb ":" colon) with true. cbn [andb].
  apply Z.leb_le. Z.div_mod_to_equations. lia.
Qed.

Lemma format_02d_digits (M : Z) :
  0 <= M -> all_chars is_digit (format_02d M) = true.
Proof.
  intro HM. unfold format_02d.
  destruct (Z.ltb_spec M 0); [lia|].
  destruct (M <? 10); [simpl|]; apply decimal_digits.
Qed.

Lemma decimal_length (n : N) :
  (1 <= String.length (decimal n))%nat /\
  ((10 <= n)%N -> (2 <= String.length (decimal n))%nat).
Proof.
  unfold decimal. pose proof (DecimalN.Unsigned.of_to n) as Hn.
  destruct (N.to_uint n) as [|u|u|u|u|u|u|u|u|u|u]; simpl; (split; [lia|]);
    intro H10;
    try (destruct u; simpl; try lia); cbv in Hn; subst n; lia.
Qed.

Lemma format_02d_length (M : Z) :
  0 <= M -> (2 <= String.length (format_02d M))%nat.
Proof.
  intro HM. unfold format_02d.
  destruct (Z.ltb_spec M 0); [lia|].
  destruct (Z.ltb_spec M 10).
  - simpl. pose proof (proj1 (decimal_length (Z.abs_N M))). lia.
  - apply (proj2 (decimal_length (Z.abs_N M))). lia.
Qed.

(* ================================================================== *)
(** * The pace *)
(* ================================================================== *)

Lemma calculate_pace_three_parts (d : float) (t a b c : string) (h m s : Z) :
  float_gt0 d = true ->
  split colon t = [a; b; c] ->
  py_int a = Some h -> py_int b = Some m -> py_int c = Some s ->
  calculate_pace (Some d) (Some t) =
  try_except (total <- total_minutes_hms h m s ;; pace_of_total total d)
             handled_in_calculate_pace None.
Proof.
  intros Hd Hs Ha Hb Hc.
  rewrite calculate_pace_guard_passed;
    [|exact Hd | exact (split_two_nonempty _ _ _ _ _ Hs)].
  rewrite Hs, Ha, Hb, Hc. reflexivity.
Qed.

Lemma calculate_pace_two_parts (d : float) (t a b : string) (m s : Z) :
  float_gt0 d = true ->
  split colon t = [a; b] ->
  py_int a = Some m -> py_int b = Some s ->
  calculate_pace (Some d) (Some t) =
  try_except (total <- total_minutes_ms m s ;; pace_of_total total d)
             handled_in_calculate_pace None.
Proof.
  intros Hd Hs Ha Hb.
  rewrite calculate_pace_guard_passed;
    [|exact Hd | exact (split_two_nonempty _ _ _ _ _ Hs)].
  rewrite Hs, Ha, Hb. reflexivity.
Qed.

(** The statements after the parse, on an int [i] of whole minutes and an
    int [s] of seconds: a finite quotient gives its text, anything else
    gives no text. *)
Lemma pace_body_finite (i s : Z) (d : float) :
  float_gt0 d = true ->
  is_finite (fdiv (fadd (Z2F i) (int_quotient s 60)) d) = true ->
  try_except
    (total <- (q <- int_truediv s 60 ;; int_add_float i q) ;; pace_of_total total d)
    handled_in_calculate_pace None
  = Ret (Some (pace_text (fdiv (fadd (Z2F i) (int_quotient s 60)) d))).
Proof.
  intros Hd Hfin.
  rewrite total_minutes_finite by exact (fdiv_finite_inv _ _ Hfin). cbn [bind].
  rewrite pace_of_total_finite; [reflexivity | | exact Hfin].
  apply float_gt0_inv in Hd. tauto.
Qed.

Lemma pace_body_not_finite (i s : Z) (d : float) (str : string) :
  is_finite (fdiv (fadd (Z2F i) (int_quotient s 60)) d) = false ->
  try_except
    (total <- (q <- int_truediv s 60 ;; int_add_float i q) ;; pace_of_total total d)
    handled_in_calculate_pace None
  <> Ret (Some str).
Proof.
  intro Hfin. unfold int_truediv, int_add_float, float_of_int. cbn [Z.eqb].
  destruct (is_inf (int_quotient s 60)); [discriminate|]. cbn [bind].
  destruct (is_inf (Z2F i)); [discriminate|]. cbn [bind].
  unfold pace_of_total, float_truediv.
  destruct (is_zero d); [discriminate|]. cbn [bind].
  destruct (fdiv (fadd (Z2F i) (int_quotient s 60)) d); discriminate.
Qed.

Lemma pace_body_shape (i s : Z) (d : float) (str : string) :
  0 <= i -> 0 <= s -> float_gt0 d = true ->
  try_except
    (total <- (q <- int_truediv s 60 ;; int_add_float i q) ;; pace_of_total total d)
    handled_in_calculate_pace None
  = Ret (Some str) ->
  pace_shape str.
Proof.
  intros Hi Hs Hd H.
  set (pm := fdiv (fadd (Z2F i) (int_quotient s 60)) d) in *.
  destruct (is_finite pm) eqn:Hfin;
    [|exfalso; exact (pace_body_not_finite i s d str Hfin H)].
  rewrite (pace_body_finite i s d Hd Hfin) in H. fold pm in H.
  injection H as <-.
  assert (Hsign : fsign pm = false).
  { apply fdiv_fsign.
    - apply fadd_fsign; [apply Z2F_fsign, Hi | apply int_quotient_fsign, Hs].
    - apply float_gt0_inv in Hd. tauto. }
  destruct (pace_tail pm Hfin (fdiv_wf _ _)) as [_ [_ [Habs Hnn]]].
  destruct (Hnn Hsign) as [HM HSS].
  unfold pace_text.
  set (M := trunc pm) in *.
  set (SS := trunc (fmul (fsub pm (Z2F M)) (Z2F 60))) in *.
  exists M, SS.
  assert (HSS59 : 0 <= SS <= 59) by lia.
  split; [exact HM|]. split; [exact HSS59|].
  rewrite (format_02d_two_digits SS) by lia.
  split; [reflexivity|].
  split; [apply format_02d_digits, HM|].
  split; [apply format_02d_length, HM|].
  intro H99. rewrite (format_02d_two_digits M) by lia.
  split; [reflexivity | apply is_MM_SS_two_digits; lia].
Qed.

(** C1 (amended). For a distance above zero and a time of three integer
    parts h, m, s (or two, m and s), whenever the quotient of the elapsed
    minutes h * 60 + m + s / 60 by the distance is a finite float,
    [calculate_pace] returns the text of that quotient: its integer part
    and its fractional part times 60, both truncated, each printed with
    [02d].  5 km in 00:25:00 and 10 km in 50:00 both give 05:00. *)
Theorem calculate_pace_formula :
  (forall (d : float) (t a b c : string) (h m s : Z),
      float_gt0 d = true ->
      split colon t = [a; b; c] ->
      py_int a = Some h -> py_int b = Some m -> py_int c = Some s ->
      is_finite (fdiv (elapsed_minutes h m s) d) = true ->
      calculate_pace (Some d) (Some t)
      = Ret (Some (pace_text (fdiv (elapsed_minutes h m s) d)))) /\
  (forall (d : float) (t a b : string) (m s : Z),
      float_gt0 d = true ->
      split colon t = [a; b] ->
      py_int a = Some m -> py_int b = Some s ->
      is_finite (fdiv (elapsed_minutes 0 m s) d) = true ->
      calculate_pace (Some d) (Some t)
      = Ret (Some (pace_text (fdiv (elapsed_minutes 0 m s) d)))) /\
  calculate_pace (Some (Z2F 5)) (Some "00:25:00") = Ret (Some "05:00") /\
  calculate_pace (Some (Z2F 10)) (Some "50:00") = Ret (Some "05:00").
Proof.
  split; [|split; [|split]].
  - intros d t a b c h m s Hd Hs Ha Hb Hc Hfin.
    rewrite (calculate_pace_three_parts d t a b c h m s Hd Hs Ha Hb Hc).
    exact (pace_body_finite (h * 60 + m) s d Hd Hfin).
  - intros d t a b m s Hd Hs Ha Hb Hfin.
    rewrite (calculate_pace_two_parts d t a b m s Hd Hs Ha Hb).
    exact (pace_body_finite m s d Hd Hfin).
  - vm_compute. reflexivity.
  - vm_compute. reflexivity.
Qed.

Lemma calculate_pace_formula_witness :
  calculate_pace (Some (Z2F 3)) (Some "00:10:00")
  = Ret (Some (pace_text (fdiv (elapsed_minutes 0 10 0) (Z2F 3)))) /\
  pace_text (fdiv (elapsed_minutes 0 10 0) (Z2F 3)) = "03:20".
Proof.
  split.
  - apply (proj1 calculate_pace_formula (Z2F 3) "00:10:00" "00" "10" "00" 0 10 0);
      reflexivity.
  - vm_compute. reflexivity.
Defined.

(** C1 as stated fails: 30 minutes over the distance 1e-320 is beyond the
    floats, and [calculate_pace] returns no text. *)
Lemma calculate_pace_overflow_no_text :
  float_gt0 tiny_distance = true /\
  split colon "00:30:00" = ["00"; "30"; "00"] /\
  py_int "00" = Some 0 /\ py_int "30" = Some 30 /\
  calculate_pace (Some tiny_distance) (Some "00:30:00") = Raise OverflowError /\
  (forall str, calculate_pace (Some tiny_distance) (Some "00:30:00") <> Ret (Some str)).
Proof.
  assert (H : calculate_pace (Some tiny_distance) (Some "00:30:00") = Raise OverflowError)
    by (vm_compute; reflexivity).
  split; [reflexivity|]. split; [reflexivity|].
  split; [reflexivity|]. split; [reflexivity|].
  split; [exact H|].
  intros str. rewrite H. discriminate.
Qed.

(** C3 (amended). For a distance above zero and a time of two or three
    non-negative integer parts, a text returned by [calculate_pace] is a
    minute field of at least two digits, a colon and a two-digit second
    field between 00 and 59; below 100 minutes per kilometre it is MM:SS. *)
Theorem calculate_pace_text_shape :
  forall (d : float) (t str : string),
    float_gt0 d = true -> nonneg_time t = true ->
    calculate_pace (Some d) (Some t) = Ret (Some str) ->
    pace_shape str.
Proof.
  intros d t str Hd Ht H. unfold nonneg_time, nonneg_part in Ht.
  destruct (split colon t) as [|a [|b [|c [|x l]]]] eqn:Hs; try discriminate.
  - destruct (py_int a) as [m|] eqn:Ha; [|discriminate].
    destruct (py_int b) as [s|] eqn:Hb; [|rewrite andb_false_r in Ht; discriminate].
    apply andb_true_iff in Ht. destruct Ht as [Hm Hs0].
    apply Z.leb_le in Hm. apply Z.leb_le in Hs0.
    rewrite (calculate_pace_two_parts d t a b m s Hd Hs Ha Hb) in H.
    exact (pace_body_shape m s d str Hm Hs0 Hd H).
  - destruct (py_int a) as [h|] eqn:Ha; [|discriminate].
    destruct (py_int b) as [m|] eqn:Hb; [|rewrite andb_false_r in Ht; discriminate].
    destruct (py_int c) as [s|] eqn:Hc; [|rewrite andb_false_r in Ht; discriminate].
    apply andb_true_iff in Ht. destruct Ht as [Ht Hs0].
    apply andb_true_iff in Ht. destruct Ht as [Hh Hm].
    apply Z.leb_le in Hh. apply Z.leb_le in Hm. apply Z.leb_le in Hs0.
    rewrite (calculate_pace_three_parts d t a b c h m s Hd Hs Ha Hb Hc) in H.
    exact (pace_body_shape (h * 60 + m) s d str ltac:(lia) Hs0 Hd H).
Qed.

Lemma calculate_pace_text_shape_witness : pace_shape "05:00".
Proof.
  apply (calculate_pace_text_shape (Z2F 5) "00:25:00" "05:00"); reflexivity.
Defined.

(** C3 as stated fails: 1 km in 01:40:00 gives 100:00, and a negative part
    gives a negative field. *)
Lemma pace_text_not_MM_SS :
  (float_gt0 (Z2F 1) = true /\
   nonneg_time "01:40:00" = true /\
   calculate_pace (Some (Z2F 1)) (Some "01:40:00") = Ret (Some "100:00") /\
   is_MM_SS "100:00" = false) /\
  (time_parts "0:-30" = Some [0; -30] /\
   calculate_pace (Some (Z2F 1)) (Some "0:-30") = Ret (Some "00:-30") /\
   is_MM_SS "00:-30" = false).
Proof.
  repeat split; vm_compute; reflexivity.
Qed.

(** C2. A missing, zero or negative distance, or a time that is missing or
    does not split into two or three integers, gives no pace and no
    exception; but 30 minutes over the distance 1e-320, a well-formed
    input, raises [OverflowError], which the handler of [calculate_pace]
    does not catch. *)
Theorem calculate_pace_malformed_absent_overflow_raises :
  (forall (d : option float) (t : option string),
      d = None \/ (exists x, d = Some x /\ float_le0 x = true) \/
      t = None \/ (exists s, t = Some s /\ time_parts s = None) ->
      calculate_pace d t = Ret None) /\
  (float_gt0 tiny_distance = true /\
   time_parts "00:30:00" = Some [0; 30; 0] /\
   calculate_pace (Some tiny_distance) (Some "00:30:00") = Raise OverflowError).
Proof.
  split.
  - intros d t H. unfold calculate_pace.
    destruct d as [x|]; [|reflexivity].
    destruct t as [s|]; [|reflexivity].
    destruct H as [H|[[x' [Hx Hle]]|[H|[s' [Hs Hparts]]]]]; try discriminate.
    + injection Hx as <-. rewrite Hle, orb_true_r. reflexivity.
    + injection Hs as <-.
      destruct (negb (float_bool (Some x)) || float_le0 x || negb (str_bool (Some s)));
        [reflexivity|].
      unfold time_parts in Hparts.
      destruct (split colon s) as [|a [|b [|c [|y l]]]]; try reflexivity.
      * destruct (py_int a); [|reflexivity].
        destruct (py_int b); [discriminate | reflexivity].
      * destruct (py_int a); [|reflexivity].
        destruct (py_int b); [|reflexivity].
        destruct (py_int c); [discriminate | reflexivity].
  - repeat split; vm_compute; reflexivity.
Qed.

(* ================================================================== *)
(** * Sums of floats *)
(* ================================================================== *)

(** The float of a positive integer below 2^53: the integer itself,
    normalised. *)
Lemma Z2F_pos_finite (a : Z) :
  0 < a < 2 ^ 53 ->
  let t := fexp prec emax (Zdigits2 a) in
  t <= 0 /\ Z2F a = S754_finite false (Z.to_pos (a * 2 ^ (- t))) t.
Proof.
  intros Ha t. destruct a as [|p|p]; try lia.
  assert (Hd : Zdigits2 (Zpos p) <= 53).
  { apply Zdigits2_le_iff; lia. }
  destruct (Z2F_of_scaled false p 0 Hd ltac:(lia)) as [Ht H].
  rewrite Z.add_0_r in Ht, H. fold t in Ht, H.
  split; [exact Ht|].
  change (cond_Zopp false (Z.pos p * 2 ^ 0)) with (Z.pos p * 1) in H.
  rewrite Z.mul_1_r in H. rewrite H. rewrite Z.sub_0_l. reflexivity.
Qed.

Lemma fadd_finite_pos (mx my : positive) (ex ey : Z) :
  fadd (S754_finite false mx ex) (S754_finite false my ey) =
  binary_normalize prec emax
    (Zpos mx * 2 ^ (ex - Z.min ex ey) + Zpos my * 2 ^ (ey - Z.min ex ey))
    (Z.min ex ey) false.
Proof.
  unfold fadd, SFadd. cbn [cond_Zopp].
  destruct (shl_align_spec mx ex (Z.min ex ey)) as [_ H1].
  destruct (shl_align_spec my ey (Z.min ex ey)) as [_ H2].
  rewrite H1, H2.
  replace (Z.min ex (Z.min ex ey)) with (Z.min ex ey) by lia.
  replace (Z.min ey (Z.min ex ey)) with (Z.min ex ey) by lia.
  reflexivity.
Qed.

(** Adding the floats of two non-negative integers whose sum is below 2^53
    gives the float of the sum: nothing is rounded. *)
Lemma fadd_Z2F (a b : Z) :
  0 <= a -> 0 <= b -> a + b < 2 ^ 53 -> fadd (Z2F a) (Z2F b) = Z2F (a + b).
Proof.
  intros Ha Hb Hab.
  destruct (Z.eq_dec a 0) as [->|Hna].
  { rewrite Z.add_0_l. destruct (Z.eq_dec b 0) as [->|Hnb]; [reflexivity|].
    destruct (Z2F_pos_finite b ltac:(lia)) as [_ ->]. reflexivity. }
  destruct (Z.eq_dec b 0) as [->|Hnb].
  { rewrite Z.add_0_r. destruct (Z2F_pos_finite a ltac:(lia)) as [_ ->]. reflexivity. }
  destruct (Z2F_pos_finite a ltac:(lia)) as [Hta Ea].
  destruct (Z2F_pos_finite b ltac:(lia)) as [Htb Eb].
  destruct (Z2F_pos_finite (a + b) ltac:(lia)) as [Htc Ec].
  set (ta := fexp prec emax (Zdigits2 a)) in *.
  set (tb := fexp prec emax (Zdigits2 b)) in *.
  set (tc := fexp prec emax (Zdigits2 (a + b))) in *.
  assert (Hda := Zdigits2_mono a (a + b) ltac:(lia) ltac:(lia)).
  assert (Hdb := Zdigits2_mono b (a + b) ltac:(lia) ltac:(lia)).
  assert (Hac : ta <= tc) by (unfold ta, tc; rewrite !fexp_eq; lia).
  assert (Hbc : tb <= tc) by (unfold tb, tc; rewrite !fexp_eq; lia).
  rewrite Ea, Eb, Ec, fadd_finite_pos.
  set (ez := Z.min ta tb).
  assert (Hez : ez <= tc) by (unfold ez; lia).
  assert (Hpa : 0 < a * 2 ^ (- ta)) by (apply Z.mul_pos_pos; [lia | apply pow2_pos; lia]).
  assert (Hpb : 0 < b * 2 ^ (- tb)) by (apply Z.mul_pos_pos; [lia | apply pow2_pos; lia]).
  rewrite !Z2Pos.id by assumption.
  assert (Hsum : a * 2 ^ (- ta) * 2 ^ (ta - ez) + b * 2 ^ (- tb) * 2 ^ (tb - ez)
                 = (a + b) * 2 ^ (- ez)).
  { rewrite <- !Z.mul_assoc, <- !pow2_split by (unfold ez; lia).
    replace (- ta + (ta - ez)) with (- ez) by lia.
    replace (- tb + (tb - ez)) with (- ez) by lia. lia. }
  rewrite Hsum.
  assert (HP : 0 < (a + b) * 2 ^ (- ez)) by (apply Z.mul_pos_pos; [lia | apply pow2_pos; lia]).
  destruct ((a + b) * 2 ^ (- ez)) as [|P|P] eqn:EP; try lia.
  cbn [binary_normalize].
  assert (Hdig : Zdigits2 (Zpos P) + ez = Zdigits2 (a + b)).
  { rewrite <- EP, Zdigits2_mul_pow2 by lia. lia. }
  assert (Hdiv : Zpos P = (a + b) * 2 ^ (- tc) * 2 ^ (tc - ez)).
  { rewrite <- EP, <- Z.mul_assoc, <- pow2_split by lia.
    replace (- tc + (tc - ez)) with (- ez) by lia. reflexivity. }
  rewrite binary_round_exact; rewrite Hdig; fold tc.
  - f_equal. f_equal. destruct (Z.leb_spec tc ez) as [Hle|Hgt].
    + assert (tc = ez) by lia. rewrite Hdiv. replace (tc - ez) with 0 by lia.
      replace (ez - tc) with 0 by lia. lia.
    + rewrite Hdiv. apply Z.div_mul. pose proof (pow2_pos (tc - ez)). lia.
  - right. rewrite Hdiv. apply Z.mod_mul. pose proof (pow2_pos (tc - ez)). lia.
  - unfold tc. rewrite fexp_eq.
    assert (Zdigits2 (a + b) <= 53) by (apply Zdigits2_le_iff; lia). lia.
Qed.


Lemma py_sum_snoc (l : list float) (x : float) :
  py_sum (l ++ [x]) = fadd (py_sum l) x.
Proof. unfold py_sum. rewrite fold_left_app. reflexivity. Qed.

(** The summation of the code adds the values in their order. *)
Lemma sum_is_py_sum (l : list float) : sum_is l (py_sum l).
Proof.
  induction l as [|x l IH] using rev_ind.
  - exact sum_nothing.
  - rewrite py_sum_snoc. apply sum_one_more, IH.
Qed.

Lemma sum_is_unique (l : list float) (t : float) :
  sum_is l t -> t = py_sum l.
Proof.
  induction 1 as [|l t x _ IH].
  - reflexivity.
  - rewrite py_sum_snoc, IH. reflexivity.
Qed.

Lemma fold_fadd_whole (ns : list Z) (acc : Z) :
  0 <= acc -> Forall (fun n => 0 <= n) ns -> acc + exact_sum ns < 2 ^ 53 ->
  fold_left fadd (map Z2F ns) (Z2F acc) = Z2F (acc + exact_sum ns).
Proof.
  revert acc. induction ns as [|n ns IH]; intros acc Hacc Hns Hsum; simpl in *.
  - rewrite Z.add_0_r. reflexivity.
  - inversion Hns as [|? ? Hn Hns']; subst.
    assert (Hrest : 0 <= exact_sum ns).
    { clear - Hns'. induction Hns' as [|m ms Hm _ IHm]; simpl; lia. }
    rewrite fadd_Z2F by lia.
    rewrite IH by (try assumption; lia).
    f_equal. lia.
Qed.

Lemma py_sum_whole (ns : list Z) :
  Forall (fun n => 0 <= n) ns -> exact_sum ns < 2 ^ 53 ->
  py_sum (map Z2F ns) = Z2F (exact_sum ns).
Proof.
  intros Hns Hsum. unfold py_sum.
  rewrite (fold_fadd_whole ns 0) by (try assumption; lia). reflexivity.
Qed.

(* ================================================================== *)
(** * The groups and the totals of the list view *)
(* ================================================================== *)

(** C4. Whatever the records, the groups, the monthly totals and the sorted
    months have one set of keys, the months of the records whose month is
    present (not NULL, not empty); a record with no month is in no group; a
    month maps to its records, in the order of the list, and to the sums of
    their distances and of their calories; the grand totals are the sums
    over all the records.  In a sum an absent value counts as 0, a zero as
    0, and any other value as itself; the values are added in the order of
    the records, and when they are whole numbers whose sum is below 2^53
    the total is exactly their sum.  With distances 5 and 3 in month
    01-2024 and 10 in 02-2024 the total of 01-2024 is 8 and the grand total
    is 18. *)
Theorem aggregate_groups_and_summed_totals :
  (forall (records : list Athlete_Data) (v : view),
      aggregate records = Ret v ->
      (forall k, In k (keys (monthly_data v)) <->
                 exists r, In r records /\ month_year r = Some k /\ k <> "") /\
      keys (monthly_totals v) = keys (monthly_data v) /\
      Permutation (keys (monthly_data v)) (sorted_months v) /\
      (forall r, In r records -> str_bool (month_year r) = false ->
                 forall k rs, lookup k (monthly_data v) = Some rs -> ~ In r rs) /\
      (forall k, In k (keys (monthly_data v)) ->
                 lookup k (monthly_data v) = Some (filter (in_month k) records) /\
                 exists t,
                   lookup k (monthly_totals v) = Some t /\
                   sum_is (map (fun r => or_zero (distance r))
                               (filter (in_month k) records))
                          (total_of_distance t) /\
                   sum_is (map (fun r => or_zero (calories r))
                               (filter (in_month k) records))
                          (total_of_calories t)) /\
      sum_is (map (fun r => or_zero (distance r)) records) (total_distance v) /\
      sum_is (map (fun r => or_zero (calories r)) records) (total_calories v)) /\
  (or_zero None = Z2F 0 /\
   (forall x, is_zero x = true -> or_zero (Some x) = Z2F 0) /\
   (forall x, is_zero x = false -> or_zero (Some x) = x)) /\
  (forall l t t', sum_is l t -> sum_is l t' -> t = t') /\
  (forall ns t,
      Forall (fun n => 0 <= n) ns -> exact_sum ns < 2 ^ 53 ->
      sum_is (map Z2F ns) t -> t = Z2F (exact_sum ns)) /\
  (exists v, aggregate sample_rows = Ret v /\
             option_map total_of_distance (lookup "01-2024" (monthly_totals v))
             = Some (Z2F 8) /\
             total_distance v = Z2F 18 /\ total_calories v = Z2F 0).
Proof.
  split; [|split; [|split; [|split]]].
  - intros records v H.
    destruct (aggregate_inv records v H) as [Hmd [Hmt [Hsm [Htd Htc]]]].
    rewrite Hmd, Hmt, Htd, Htc.
    split; [|split; [|split; [|split; [|split; [|split]]]]].
    + intro k. apply group_by_month_keys.
    + apply keys_monthly_totals_of.
    + apply (sorted_by_month_desc_spec _ _ Hsm).
    + intros r Hr Hfalse k rs Hl Hin.
      assert (Hk : In k (keys (group_by_month records))).
      { apply lookup_Some_keys. eauto. }
      rewrite (group_by_month_lookup records k Hk) in Hl. injection Hl as <-.
      apply filter_In in Hin. destruct Hin as [_ Hin].
      apply in_month_iff in Hin.
      apply group_by_month_keys in Hk. destruct Hk as [_ [_ [_ Hne]]].
      rewrite Hin in Hfalse. apply str_bool_Some in Hne. congruence.
    + intros k Hk. split; [apply group_by_month_lookup, Hk|].
      exists (totals_of (filter (in_month k) records)). split.
      * rewrite lookup_monthly_totals_of, (group_by_month_lookup records k Hk).
        reflexivity.
      * split; apply sum_is_py_sum.
    + apply sum_is_py_sum.
    + apply sum_is_py_sum.
  - split; [reflexivity|]. split; intros x Hx.
    + unfold or_zero, float_bool. rewrite Hx. reflexivity.
    + unfold or_zero, float_bool. rewrite Hx. reflexivity.
  - intros l t t' H H'.
    rewrite (sum_is_unique l t H), (sum_is_unique l t' H'). reflexivity.
  - intros ns t Hns Hsum H.
    rewrite (sum_is_unique _ t H). apply py_sum_whole; assumption.
  - eexists. split; [vm_compute; reflexivity|].
    split; [|split]; vm_compute; reflexivity.
Qed.

Lemma aggregate_groups_and_summed_totals_witness :
  exists v t,
    aggregate sample_rows = Ret v /\
    lookup "01-2024" (monthly_data v)
    = Some (filter (in_month "01-2024") sample_rows) /\
    lookup "01-2024" (monthly_totals v) = Some t /\
    total_of_distance t = Z2F (exact_sum [5; 3]).
Proof.
  destruct (aggregate sample_rows) as [v|e] eqn:E; [|vm_compute in E; discriminate E].
  destruct (proj1 aggregate_groups_and_summed_totals sample_rows v E)
    as [Hk [_ [_ [_ [Hg _]]]]].
  assert (Hin : In "01-2024" (keys (monthly_data v))).
  { apply Hk. exists (sample_row 1 "05-01-2024" 5 "01-2024").
    split; [left; reflexivity|]. split; [reflexivity | discriminate]. }
  destruct (Hg "01-2024" Hin) as [Hl [t [Ht [Hd _]]]].
  exists v, t. split; [reflexivity|]. split; [exact Hl|]. split; [exact Ht|].
  assert (Hvals : map (fun r => or_zero (distance r))
                      (filter (in_month "01-2024") sample_rows)
                  = map Z2F [5; 3]) by (vm_compute; reflexivity).
  rewrite Hvals in Hd.
  apply (proj1 (proj2 (proj2 (proj2 aggregate_groups_and_summed_totals))) [5; 3]
           (total_of_distance t)).
  - repeat constructor; lia.
  - reflexivity.
  - exact Hd.
Defined.

(* ================================================================== *)
(** * The order of the list view *)
(* ================================================================== *)

Lemma StronglySorted_weaken {A : Type} (R S : A -> A -> Prop) (l : list A) :
  (forall a b, R a b -> S a b) -> StronglySorted R l -> StronglySorted S l.
Proof.
  intros HRS H. induction H as [|a l Hs IH Ha]; constructor.
  - exact IH.
  - rewrite Forall_forall in *. intros b Hb. apply HRS, Ha, Hb.
Qed.

(** Two texts with a common ending, after beginnings of one length, compare
    as their beginnings do. *)
Lemma string_compare_app (x y s : string) :
  String.length x = String.length y ->
  String.compare (x ++ s) (y ++ s) = String.compare x y.
Proof.
  revert y. induction x as [|c x IH]; intros [|c' y] Hlen; try discriminate Hlen.
  - simpl. apply string_compare_refl.
  - simpl. destruct (Ascii.compare c c'); try reflexivity.
    apply IH. simpl in Hlen. congruence.
Qed.

(** Two numbers written on two digits compare, as texts, as they do as
    numbers. *)
Lemma compare_two_digits (a b : Z) :
  0 <= a <= 99 -> 0 <= b <= 99 ->
  String.compare (two_digits a) (two_digits b) = (a ?= b).
Proof.
  intros Ha Hb.
  assert (H : forallb (fun m => same_comparison
                                  (String.compare (two_digits a) (two_digits m)) (a ?= m))
                      (map Z.of_nat (seq 0 (Z.to_nat 100))) = true).
  { apply (below_by_cases
             (fun n => forallb (fun m => same_comparison
                                  (String.compare (two_digits n) (two_digits m)) (n ?= m))
                      (map Z.of_nat (seq 0 (Z.to_nat 100)))) 100);
      [vm_compute; reflexivity | lia]. }
  assert (H' := below_by_cases _ 100 H b ltac:(lia)). cbv beta in H'.
  destruct (String.compare (two_digits a) (two_digits b)), (a ?= b);
    try reflexivity; discriminate H'.
Qed.

(** Among days of one month of one year, the order of the date texts is the
    order of the days. *)
Lemma date_compare_same_month (pa pb : datetime) :
  valid_date (year pa) (month pa) (day pa) = true ->
  valid_date (year pb) (month pb) (day pb) = true ->
  year pa = year pb -> month pa = month pb ->
  date_compare (Some (strftime_dmY pa)) (Some (strftime_dmY pb))
  = datetime_compare pa pb.
Proof.
  intros Ha Hb Hy Hm.
  destruct (strftime_of_valid pa Ha) as [-> _].
  destruct (strftime_of_valid pb Hb) as [-> _].
  apply valid_date_bounds in Ha. apply valid_date_bounds in Hb.
  unfold date_compare, datetime_compare.
  rewrite Hy, Hm, !Z.compare_refl.
  rewrite string_compare_app by reflexivity.
  apply compare_two_digits; lia.
Qed.

Lemma row_before_within_month (a b : Athlete_Data) :
  row_before a b -> calendar_before_within_month a b.
Proof.
  intros Hab pa pb [Hva Hda] [Hvb Hdb] Hy Hm.
  assert (Hc := date_compare_same_month pa pb Hva Hvb Hy Hm).
  rewrite <- Hda, <- Hdb in Hc.
  destruct Hab as [Hgt|[Heq Hid]].
  - left. congruence.
  - right. split; [|exact Hid].
    rewrite <- Hc. apply date_compare_eq. exact Heq.
Qed.

(** C9. The rows the list view reads are the rows of the table, ordered by
    the text of the [date] column descending (an absent date last) and,
    among equal dates, by id descending.  Among the days of one month of one
    year this is the calendar order, the latest day first: of three records
    of January 2024, dated 5, 7 and 7, the two of the 7th come first, the
    higher id before the lower. *)
Theorem select_desc_sorted_by_date_text_then_id :
  (forall st : store,
      Permutation st (select_desc st) /\
      StronglySorted row_before (select_desc st) /\
      StronglySorted calendar_before_within_month (select_desc st)) /\
  select_desc [ dated_row 1 "05-01-2024" "01-2024";
                dated_row 2 "07-01-2024" "01-2024";
                dated_row 3 "07-01-2024" "01-2024" ]
  = [ dated_row 3 "07-01-2024" "01-2024";
      dated_row 2 "07-01-2024" "01-2024";
      dated_row 1 "05-01-2024" "01-2024" ].
Proof.
  split; [|vm_compute; reflexivity].
  intro st. split; [apply sort_desc_perm|]. split.
  - apply select_desc_row_before.
  - apply StronglySorted_weaken with (R := row_before).
    + exact row_before_within_month.
    + apply select_desc_row_before.
Qed.

(** The list view is not in calendar order across months: of two records
    written for 31 January 2024 and 1 February 2024, it shows the one of
    January first. *)
Lemma list_view_not_in_calendar_order :
  (exists st,
      add no_float (form_with_date "2024-01-31") some_day [] = Ret st /\
      add no_float (form_with_date "2024-02-01") some_day st = Ret cross_month_rows) /\
  select_desc cross_month_rows
  = [ dated_row 1 "31-01-2024" "01-2024"; dated_row 2 "01-02-2024" "02-2024" ] /\
  dated (dated_row 1 "31-01-2024" "01-2024") {| year := 2024; month := 1; day := 31 |} /\
  dated (dated_row 2 "01-02-2024" "02-2024") {| year := 2024; month := 2; day := 1 |} /\
  ~ StronglySorted calendar_before (select_desc cross_month_rows).
Proof.
  assert (D1 : dated (dated_row 1 "31-01-2024" "01-2024")
                     {| year := 2024; month := 1; day := 31 |})
    by (split; vm_compute; reflexivity).
  assert (D2 : dated (dated_row 2 "01-02-2024" "02-2024")
                     {| year := 2024; month := 2; day := 1 |})
    by (split; vm_compute; reflexivity).
  assert (E : select_desc cross_month_rows
              = [ dated_row 1 "31-01-2024" "01-2024"; dated_row 2 "01-02-2024" "02-2024" ])
    by (vm_compute; reflexivity).
  split; [|split; [exact E | split; [exact D1 | split; [exact D2|]]]].
  - eexists. split; vm_compute; reflexivity.
  - rewrite E. intro H.
    inversion H as [|a l _ Hall]; subst.
    inversion Hall as [|b l' Hab _]; subst.
    destruct (Hab _ _ D1 D2) as [Hc|[Hc _]]; vm_compute in Hc; discriminate Hc.
Qed.

(* ================================================================== *)
(** * More on the pace *)
(* ================================================================== *)













(* ================================================================== *)
(** * More on the table and the handlers *)
(* ================================================================== *)













Section MoreHandlerFacts.

Variable py_float : string -> option float.

Lemma reachable_derived (st : store) :
  reachable py_float st -> Forall derived st.
Proof.
  induction 1 as [|f now st st' _ IH H|f st st' _ IH H|a st st' _ IH H].
  - constructor.
  - exact (add_preserves_derived py_float f now st st' IH H).
  - exact (edit_preserves_derived py_float f st st' IH H).
  - exact (delete_preserves_derived a st st' IH H).
Qed.










End MoreHandlerFacts.










(* ================================================================== *)
(** * More on the month of a date *)
(* ================================================================== *)





(* ================================================================== *)
(** * More on the list view *)
(* ================================================================== *)

















(* ================================================================== *)
(** * The migration script *)
(* ================================================================== *)














